(** * Counting and BasicNuclearCalcs (GeneralNuclear) in Rocq

    Shallow embedding of the count-time solver, the counting-schedule
    optimiser, the peak window finder and the analytic peak area of
    [GeneralNuclear/Counting.py], and of [decay], [activity] and
    [get_decay_const] of [GeneralNuclear/BasicNuclearCalcs.py].

    Python floats are modelled by real numbers (exact arithmetic); the
    Python operations that raise on floats are written out: division by
    zero raises [ZeroDivisionError], [math.sqrt] of a negative number
    raises [ValueError], a failed [assert] raises [AssertionError].
    Statements that print are recorded on a [stdout] list, and the
    caller's DataFrame lives in a store so that in-place column updates
    are visible to the caller. *)

From Stdlib Require Import Reals Lra Lia.
From stdpp Require Import base list gmap strings sorting.

Open Scope R_scope.

(** ** Data model: rows of the foil DataFrame *)
Module Frame.

(** One row of the [foilParams] DataFrame, with the columns that
    [optimal_count_plan] requires. *)
Record channel := mk_channel {
  foil : string;
  gammaEnergy : R;
  halfLife : R;
  initActivity : R;
  activityUncert : R;
  det2FoilDist : R;
  relStat : R;
  foilR : R
}.

(** A DataFrame: its rows in index order. *)
Definition frame := list channel.

(** Locations of Python objects in the store. *)
Definition loc := positive.

End Frame.

(** ** Python semantics: exceptions, stdout and the object store *)
Module Py.
Import Frame.

Inductive exn :=
| AssertionError
| ZeroDivisionError
| ValueError
| UnboundLocalError.

#[global] Instance exn_eq_dec : EqDecision exn.
Proof. solve_decision. Defined.

(** Outcome of a computation: a value, a raised exception, or (for the
    fuel-bounded model of a [while] loop) running out of fuel. *)
Inductive res (A : Type) :=
| Ok (a : A)
| Exc (e : exn)
| NoFuel.
Arguments Ok {A} a.
Arguments Exc {A} e.
Arguments NoFuel {A}.

(** The interpreter state: the DataFrame objects reachable by the
    caller, and the lines printed so far. *)
Record world := mk_world {
  store : loc -> frame;
  stdout : list string
}.

Definition M (A : Type) := world -> res A * world.

Definition ret {A} (a : A) : M A := fun w => (Ok a, w).

Definition raise {A} (e : exn) : M A := fun w => (Exc e, w).

Definition out_of_fuel {A} : M A := fun w => (NoFuel, w).

Definition bind {A B} (m : M A) (k : A -> M B) : M B :=
  fun w =>
    match m w with
    | (Ok a, w') => k a w'
    | (Exc e, w') => (Exc e, w')
    | (NoFuel, w') => (NoFuel, w')
    end.

Notation "x <- m ;; k" := (bind m (fun x => k))
  (at level 100, m at next level, right associativity).
Notation "m ;;; k" := (bind m (fun _ => k))
  (at level 100, right associativity).

(** [print msg] *)
Definition print (msg : string) : M unit :=
  fun w => (Ok tt, mk_world (store w) (stdout w ++ [msg])).

(** [assert cond] *)
Definition py_assert (b : bool) : M unit :=
  if b then ret tt else raise AssertionError.

(** Reading and writing the object at a location. *)
Definition load (l : loc) : M frame := fun w => (Ok (store w l), w).

Definition store_upd (s : loc -> frame) (l : loc) (f : frame) : loc -> frame :=
  fun l' => if decide (l' = l) then f else s l'.

Definition assign (l : loc) (f : frame) : M unit :=
  fun w => (Ok tt, mk_world (store_upd (store w) l f) (stdout w)).

(** [try m except E: h] for one exception class [E]. *)
Definition try_except {A} (m : M A) (E : exn) (h : M A) : M A :=
  fun w =>
    match m w with
    | (Exc e, w') => if decide (e = E) then h w' else (Exc e, w')
    | r => r
    end.

(** Float comparisons as booleans. *)
Definition Rltb (x y : R) : bool := if Rlt_dec x y then true else false.
Definition Rleb (x y : R) : bool := if Rle_dec x y then true else false.
Definition Reqb (x y : R) : bool := if Req_dec_T x y then true else false.

(** [x / y] on floats. *)
Definition pdiv (x y : R) : M R :=
  if Reqb y 0 then raise ZeroDivisionError else ret (x / y).

(** [math.sqrt x] *)
Definition psqrt (x : R) : M R :=
  if Rltb x 0 then raise ValueError else ret (sqrt x).

(** [x ** y] on floats, as Python 2's [float_pow] computes it (overflow
    aside): [x ** 0] is [1]; [0 ** y] is [0] for [y > 0] and raises
    [ZeroDivisionError] for [y < 0]; a negative [x] raises [ValueError]
    unless [y] is an integer, and then the sign follows the parity of
    [y]. *)
Definition py_fpow (x y : R) : M R :=
  if Reqb y 0 then ret 1
  else if Rltb 0 x then ret (Rpower x y)
  else if Reqb x 0 then (if Rltb y 0 then raise ZeroDivisionError else ret 0)
  else if Reqb (IZR (Int_part y)) y
  then ret ((if Z.even (Int_part y) then 1 else -1) * Rpower (- x) y)
  else raise ValueError.

(** [math.ceil x] *)
Definition ceil (x : R) : R := - IZR (Int_part (- x)).

End Py.

(** ** GeneralNuclear/BasicNuclearCalcs.py *)
Module BasicNuclearCalcs.
Import Py.

(** [get_decay_const(halfLife)] *)
Definition get_decay_const (halfLife : R) : M R :=
  py_assert (Rltb 0 halfLife) ;;;
  pdiv (ln 2) halfLife.

Definition decay_warning : string :=
  "WARNING: Unknown activity units specified.  Valid specfications are: 'uCi', 'Ci', or 'Bq', or 'atoms'.                Decay calculations are not to be trusted.".

(** [decay(halfLife, n, t, units='uCi')] *)
Definition decay (halfLife n t : R) (units : string) : M R :=
  py_assert (Rltb 0 halfLife) ;;;
  py_assert (Rleb 0 n) ;;;
  py_assert (Rleb 0 t) ;;;
  n' <- (if String.eqb units "uCi" then ret (n * 1e-6 * 3.7e10)
         else if String.eqb units "Ci" then ret (n * 3.7e10)
         else if negb (String.eqb units "Bq") && negb (String.eqb units "atoms")
         then print decay_warning ;;; ret n
         else ret n) ;;
  lam <- get_decay_const halfLife ;;
  ret (n' * exp (- lam * t)).

(** The default of the [units] argument of [decay]. *)
Definition decay_default_units : string := "uCi".

(** [activity(halfLife, n, t=0)] *)
Definition activity (halfLife n t : R) : M R :=
  py_assert (Rltb 0 halfLife) ;;;
  py_assert (Rleb 0 n) ;;;
  py_assert (Rleb 0 t) ;;;
  lam <- get_decay_const halfLife ;;
  ret (lam * n * exp (- lam * t)).

(** [production_decay(halfLife, n, t, rate, src, vol=1, tt=0.0)] *)
Definition production_decay (halfLife n t rate src vol tt : R) : M R :=
  py_assert (Rltb 0 halfLife) ;;;
  py_assert (Rleb 0 n) ;;;
  py_assert (Rleb 0 t) ;;;
  py_assert (Rleb 0 rate) ;;;
  py_assert (Rleb 0 src) ;;;
  py_assert (Rltb 0 vol) ;;;
  py_assert (Rleb 0 tt) ;;;
  lam <- get_decay_const halfLife ;;
  p <- pdiv (rate * vol * src) lam ;;
  let n0 := p * (1 - exp (- lam * t)) + n * exp (- lam * t) in
  let n0 := n0 * exp (- lam * tt) in
  ret n0.

(** [get_halflife(decayConst)] *)
Definition get_halflife (decayConst : R) : M R :=
  py_assert (Rltb 0 decayConst) ;;;
  pdiv (ln 2) decayConst.

(** [solid_angle(a, d)]: [d/sqrt(d**2+a**2)] divides by [0.0] when
    [a = d = 0]. *)
Definition solid_angle (a d : R) : M R :=
  py_assert (Rleb 0 a) ;;;
  py_assert (Rleb 0 d) ;;;
  r <- psqrt (d ^ 2 + a ^ 2) ;;
  q <- pdiv d r ;;
  ret (2 * PI * (1 - q)).

(** [fractional_solid_angle(a, d)]: [solid_angle(a,d)/4.0/pi] (the
    divisors are non-zero constants). *)
Definition fractional_solid_angle (a d : R) : M R :=
  s <- solid_angle a d ;;
  ret (s / 4 / PI).

End BasicNuclearCalcs.

(** ** DataAnalysis/Math.py: the peak shape functions of [ge_bincounts] *)
Module Math.
Import Py.

(** [z = (x-centroid)/float(width)] raises [ZeroDivisionError] for a
    zero [width] (Python float division). *)

(** [gauss(x, amplitude, centroid, width)] *)
Definition gauss (x amplitude centroid width : R) : M R :=
  z <- pdiv (x - centroid) width ;;
  ret (amplitude * exp (- 0.5 * z ^ 2)).

(** [smeared_step(x, centroid, width, amplitude)]; the divisor
    [(1+exp(z))**2] is positive. *)
Definition smeared_step (x centroid width amplitude : R) : M R :=
  z <- pdiv (x - centroid) width ;;
  ret (amplitude / (1 + exp z) ^ 2).

(** [skew_gauss(x, centroid, width, amplitude, rng)]; the divisor
    [(1+exp(z))**4] is positive. *)
Definition skew_gauss (x centroid width amplitude rng : R) : M R :=
  z <- pdiv (x - centroid) width ;;
  ret (amplitude * exp (rng * z) / (1 + exp z) ^ 4).

(** [quadratic(x, quad, linear, offset)] *)
Definition quadratic (x quad linear offset : R) : R :=
  quad * x ^ 2 + linear * x + offset.

End Math.

(** ** GeneralNuclear/Counting.py *)
Module Counting.
Import Frame Py BasicNuclearCalcs Math.

(** *** [volume_solid_angle] *)

(** [volume_solid_angle(rSrc, rDet, det2src)] on float arguments.  A
    float [x ** y] with [x > 0] is [Rpower x y]; past the assertions
    every divisor is positive ([det2src >= 1], [1+beta >= 1]), so no
    division raises.  The constant [1155./1028.] is the source's.  With
    int [det2src] and an int radius, Python 2 floor-divides
    [rSrc/det2src] or [rDet/det2src]; that case is not modelled. *)
Definition volume_solid_angle (rSrc rDet det2src : R) : M R :=
  py_assert (Rleb 1 det2src) ;;;
  py_assert (Rleb 0 rSrc && Rleb 0 rDet) ;;;
  let alpha := (rSrc / det2src) ^ 2 in
  let beta := (rDet / det2src) ^ 2 in
  let f1 := 5 / 16 * (beta / Rpower (1 + beta) (7 / 2))
            - 35 / 64 * (beta ^ 2 / Rpower (1 + beta) (9 / 2)) in
  let f2 := 35 / 128 * (beta / Rpower (1 + beta) (9 / 2))
            - 315 / 256 * (beta ^ 2 / Rpower (1 + beta) (11 / 2))
            + 1155 / 1028 * (beta ^ 3 / Rpower (1 + beta) (13 / 2)) in
  let gcf := 0.5 * (1 - 1 / Rpower (1 + beta) (1 / 2)
                    - 3 / 8 * (alpha * beta / Rpower (1 + beta) (5 / 2))
                    + alpha ^ 2 * f1 - alpha ^ 3 * f2) in
  ret gcf.

(** *** [germanium_eff_exp] *)

(** [germanium_eff_exp(e, a, b, c, d)] for a scalar energy [e]:
    [1 / (a*e**b + c*e**d)], evaluated left to right. *)
Definition germanium_eff_exp (e a b c d : R) : M R :=
  eb <- py_fpow e b ;;
  ed <- py_fpow e d ;;
  pdiv 1 (a * eb + c * ed).

(** *** [find_best_fit] *)

(** The outcome of [popt, pcov = curve_fit(func, **kwargs)]: the fitted
    parameters and covariance, or the exception it raised. *)
Inductive fit_outcome (P C : Type) :=
| FitOk (popt : P) (pcov : C)
| FitTypeError
| FitRuntimeError
| FitRaise (e : exn).
Arguments FitOk {P C} popt pcov.
Arguments FitTypeError {P C}.
Arguments FitRuntimeError {P C}.
Arguments FitRaise {P C} e.

(** The value [find_best_fit] returns: [(None, [], [], 0.0)] or
    [(bestFunc, params, covar, bestChiSq)]. *)
Inductive fit_result (F P C : Type) :=
| NoFit
| BestFit (bestFunc : F) (params : P) (covar : C) (bestChiSq : R).
Arguments NoFit {F P C}.
Arguments BestFit {F P C} bestFunc params covar bestChiSq.

Definition fit_error_msg : string :=
  "('ERROR: Either the incorrect minimum arguments or an incorrect argument was specified for the ', 'scipy.optimize.curve_fit function.')".

Definition no_fit_msg : string := "WARNING: No fit was found.".

Section FindBestFit.
Context {F P C : Type}.

(** [curve_fit(func, **kwargs)], an external collaborator. *)
Variable curve_fit : F -> fit_outcome P C.

(** [red_chisq(kwargs['ydata'], yModel, kwargs['sigma'],
    freeParams=len(popt))] (or without [sigma] when the [KeyError] branch
    is taken) for [yModel] the model [func] with parameters [popt] on
    [kwargs['xdata']]. *)
Variable red_chisq : F -> P -> R.

(** [redChiSq < bestChiSq]; [bestChiSq] is [np.inf] until the first
    assignment, which also binds [bestFunc], [params] and [covar]. *)
Definition below_best (r : R) (best : option (F * P * C * R)) : bool :=
  match best with
  | None => true
  | Some (_, _, _, b) => Rltb r b
  end.

(** [for func in args:] with the loop-carried locals [redChiSq] and
    [(popt, pcov)] ([None] while unbound) and
    [(bestFunc, params, covar, bestChiSq)]. *)
Fixpoint fit_loop (args : list F) (redChiSq : option R) (fit : option (P * C))
    (best : option (F * P * C * R)) : M (option (F * P * C * R)) :=
  match args with
  | [] => ret best
  | func :: rest =>
    st <- match curve_fit func with
          | FitOk popt pcov => ret (Some (red_chisq func popt), Some (popt, pcov))
          | FitTypeError => print fit_error_msg ;;; ret (redChiSq, fit)
          | FitRuntimeError => ret (redChiSq, fit)
          | FitRaise e => raise e
          end ;;
    let '(redChiSq, fit) := st in
    match redChiSq with
    | None => raise UnboundLocalError
    | Some r =>
      if below_best r best then
        match fit with
        | None => raise UnboundLocalError
        | Some (popt, pcov) => fit_loop rest redChiSq fit (Some (func, popt, pcov, r))
        end
      else fit_loop rest redChiSq fit best
    end
  end.

(** [find_best_fit( *args, **kwargs)] *)
Definition find_best_fit (args : list F) : M (fit_result F P C) :=
  try_except
    (best <- fit_loop args None None None ;;
     match best with
     | None => raise UnboundLocalError
     | Some (bestFunc, params, covar, bestChiSq) =>
       ret (BestFit bestFunc params covar bestChiSq)
     end)
    UnboundLocalError
    (print no_fit_msg ;;; ret NoFit).

End FindBestFit.

(** *** [ge_bincounts] *)

(** [ge_bincounts(x, p1, ..., p9)] *)
Definition ge_bincounts (x p1 p2 p3 p4 p5 p6 p7 p8 p9 : R) : M R :=
  f1 <- gauss x p1 p2 p3 ;;
  f2 <- smeared_step x p2 p3 p6 ;;
  f3 <- skew_gauss x p2 p3 p4 p5 ;;
  let f5 := quadratic x p7 p8 p9 in
  ret (f1 + f2 + f3 + f5).

(** *** [ge_peakcounts] *)
Section PeakCounts.
(** [scipy.special.gamma], an external collaborator. *)
Variable gamma : R -> R.

(** [ge_peakcounts(p1, p3, p4, p5)]: gaussian amplitude [p1], width [p3],
    skew amplitude [p4], skew range [p5]. *)
Definition ge_peakcounts (p1 p3 p4 p5 : R) : R :=
  let t1 := p1 * p3 * sqrt (2 * PI) in
  let t2 := p3 * p4 * (gamma p5 * gamma (4 - p5)) / 6 in
  if Rltb t1 t2 then t1 else t1 + t2.

End PeakCounts.

(** *** [get_peak_windows] *)
Section PeakWindows.
Local Open Scope Z_scope.

(** [ch[i]] with Python's indexing: a negative index counts from the end;
    an index out of range raises [IndexError] ([None]). *)
Definition py_get (l : list Z) (i : Z) : option Z :=
  let n := Z.of_nat (length l) in
  let j := if i <? 0 then n + i else i in
  if (0 <=? j) then l !! Z.to_nat j else None.

Variables (maxWindow peakWidth minWindow : Z).

(** The four [if] blocks of the loop body, applied in turn to
    [windows[ch[i]]], which starts as [[0, 0]]. *)
Definition window_block1 (ch : list Z) (i : Z) (w : Z * Z) : option (Z * Z) :=
  if bool_decide (i = 0) && negb (bool_decide (i = Z.of_nat (length ch) - 1)) then
    c ← py_get ch i;
    cn ← py_get ch (i + 1);
    let lo := c - maxWindow in
    let hi := if bool_decide (cn - peakWidth < c + maxWindow)
              then c + Z.max (cn - peakWidth - c) minWindow
              else c + maxWindow in
    Some (lo, hi)
  else Some w.

Definition window_block2 (ch : list Z) (i : Z) (w : Z * Z) : option (Z * Z) :=
  if bool_decide (i = 0) && bool_decide (i = Z.of_nat (length ch) - 1) then
    c ← py_get ch i;
    Some (c - maxWindow, c + maxWindow)
  else Some w.

Definition window_block3 (ch : list Z) (i : Z) (w : Z * Z) : option (Z * Z) :=
  if negb (bool_decide (i = 0)) && negb (bool_decide (i = Z.of_nat (length ch) - 1)) then
    c ← py_get ch i;
    cp ← py_get ch (i - 1);
    let lo := if bool_decide (c - maxWindow < cp + peakWidth)
              then c - Z.max (c - peakWidth - cp) minWindow
              else c - maxWindow in
    cn ← py_get ch (i + 1);
    let hi := if bool_decide (cn - peakWidth < c + maxWindow)
              then c + Z.max (cn - peakWidth - c) minWindow
              else c + maxWindow in
    Some (lo, hi)
  else Some w.

Definition window_block4 (ch : list Z) (i : Z) (w : Z * Z) : option (Z * Z) :=
  if bool_decide (i = Z.of_nat (length ch) - 1) then
    c ← py_get ch i;
    let hi := c + maxWindow in
    cp ← py_get ch (i - 1);
    let lo := if bool_decide (c - maxWindow < cp + peakWidth)
              then c - Z.max (c - peakWidth - cp) minWindow
              else c - maxWindow in
    Some (lo, hi)
  else Some w.

(** The window of [ch[i]] after the loop body for index [i]. *)
Definition window_at (ch : list Z) (i : Z) : option (Z * Z) :=
  w ← window_block1 ch i (0, 0);
  w ← window_block2 ch i w;
  w ← window_block3 ch i w;
  window_block4 ch i w.

(** [get_peak_windows(ch, maxWindow, peakWidth, minWindow)]: the dict
    [windows], keyed by peak channel; [None] is an [IndexError]. *)
Definition get_peak_windows (ch : list Z) : option (gmap Z (Z * Z)) :=
  foldl (fun acc i =>
           windows ← acc;
           c ← py_get ch i;
           w ← window_at ch i;
           Some (<[c := w]> windows))
        (Some ∅) (seqZ 0 (Z.of_nat (length ch))).

End PeakWindows.

(** *** [counts] *)

Definition count_units_warning : string :=
  "WARNING: Invalid countUnits specified. Assuming seconds.".

Definition activity_units_warning : string :=
  "WARNING: Invalid activity units specified. Assuming Bq.".

(** [quad(integrand, 0, countTime)[0]] for the local
    [integrand(t) = decay(halfLife, initActivity, t, units='Bq')]:
    QUADPACK evaluates the integrand first at the midpoint of the
    interval, and an exception raised there propagates out of [quad];
    the value is the exact integral of the exponential. *)
Definition quad_decay (halfLife initActivity countTime : R) : M R :=
  _ <- decay halfLife initActivity (countTime / 2) "Bq" ;;
  let lam := ln 2 / halfLife in
  ret (initActivity * (1 - exp (- lam * countTime)) / lam).

(** [counts(initActivity, halfLife, countTime, units='Bq',
    countUnits='s')].  The assertion [activity >= 0] compares the
    imported function [activity] with [0], which is true in Python 2
    (numbers order before all other objects). *)
Definition counts (initActivity halfLife countTime : R) (units countUnits : string)
    : M R :=
  py_assert (Rltb 0 halfLife) ;;;
  py_assert (Rltb 0 countTime) ;;;
  py_assert true ;;;
  countTime <- (if String.eqb countUnits "h" then ret (countTime * 3600)
                else if String.eqb countUnits "d" then ret (countTime * 24 * 3600)
                else if String.eqb countUnits "y" then ret (countTime * 365 * 24 * 3600)
                else if negb (String.eqb countUnits "s")
                then print count_units_warning ;;; ret countTime
                else ret countTime) ;;
  initActivity <- (if String.eqb units "uCi" then ret (initActivity * 1e-6 * 3.7e10)
                   else if String.eqb units "Ci" then ret (initActivity * 3.7e10)
                   else if negb (String.eqb units "Bq")
                   then print activity_units_warning ;;; ret initActivity
                   else ret initActivity) ;;
  quad_decay halfLife initActivity countTime.

(** *** [foil_count_time] *)

(** The conversion of the initial quantity done by [decay]. *)
Definition to_base (units : string) (n : R) : R :=
  if String.eqb units "uCi" then n * 1e-6 * 3.7e10
  else if String.eqb units "Ci" then n * 3.7e10
  else n.

Section FoilCountTime.
Variables (sigma halfLife init efficiency background : R) (units : string)
  (precision : R).

(** The value of the local function [integrand(t)], for [t >= 0] and
    inputs that passed the assertions of [foil_count_time]. *)
Definition integrand (t : R) : R :=
  let lam := ln 2 / halfLife in
  if String.eqb units "atoms" then lam * init * exp (- lam * t) * efficiency
  else to_base units init * exp (- lam * t) * efficiency.

(** [quad(integrand, 0, tf)[0]]: [scipy.integrate.quad] is modelled by
    the exact integral of the exponential integrand (see
    [CountTimeFacts.quad_integrand_is_integral]); the warnings that
    [decay] prints while [quad] samples the integrand are not recorded. *)
Definition quad_integrand (tf : R) : R :=
  let lam := ln 2 / halfLife in
  integrand 0 * (1 - exp (- lam * tf)) / lam.

(** The assertions at the top of [foil_count_time]. *)
Definition fct_validate : M unit :=
  py_assert (Rleb sigma 1) ;;;
  py_assert (Rltb 0 halfLife) ;;;
  py_assert (Rleb 0 init) ;;;
  py_assert (Rleb efficiency 1) ;;;
  py_assert (Rleb 0 background).

Definition deadtime_warning : string :=
  "WARNING: The Dead time may be > 5% with this set-up.".

(** [if units == "atoms" and activity(...) > 12000 or
        units != "atoms" and decay(...) > 12000: print ...] *)
Definition fct_deadtime_check : M unit :=
  hot <- (if String.eqb units "atoms"
          then a <- activity halfLife init 0 ;; ret (Rltb 12000 a)
          else ret false) ;;
  hot <- (if hot then ret true
          else if negb (String.eqb units "atoms")
          then d <- decay halfLife init 0 units ;; ret (Rltb 12000 d)
          else ret false) ;;
  if hot then print deadtime_warning else ret tt.

(** One update of the Knoll background-corrected counting time (Knoll
    eqn 3.54/55), evaluated left to right as Python does. *)
Definition knoll_update (s : R) : M R :=
  a <- psqrt (s + background) ;;
  b <- psqrt background ;;
  num <- pdiv ((a + b) ^ 2) (sigma ^ 2 * s ^ 2) ;;
  r <- pdiv (s + background) background ;;
  q <- psqrt r ;;
  d <- pdiv 1 q ;;
  pdiv num (1 + d).

(** [while diff > precision: prevt = tf; s = quad(...)/tf; tf = ...;
    diff = tf-prevt]; the loop state is [tf], [diff] and the local [s]
    ([None] while it is unbound). *)
Fixpoint count_loop (fuel : nat) (tf diff : R) (s : option R) : M (R * option R) :=
  if Rltb precision diff then
    match fuel with
    | O => out_of_fuel
    | S fuel' =>
      let prevt := tf in
      s' <- pdiv (quad_integrand tf) tf ;;
      tf' <- knoll_update s' ;;
      count_loop fuel' tf' (tf' - prevt) (Some s')
    end
  else ret (tf, s).

(** The body of the [try] block: the loop from [tf = 1], [diff = 1000],
    then [tb = tf/sqrt((s+background)/background)].  The test
    [if tf == np.inf] never holds for a real [tf]. *)
Definition count_time_body (fuel : nat) : M (R * R) :=
  ts <- count_loop fuel 1 1000 None ;;
  match ts with
  | (_, None) => raise UnboundLocalError
  | (tf, Some s) =>
    r <- pdiv (s + background) background ;;
    q <- psqrt r ;;
    tb <- pdiv tf q ;;
    ret (tf, tb)
  end.

(** [foil_count_time(sigma, halfLife, init, efficiency, background,
    units, precision)]; [except (ZeroDivisionError, RuntimeWarning)]
    returns [(1E99, 1E99)] ([math] functions never raise a
    [RuntimeWarning]). *)
Definition foil_count_time (fuel : nat) : M (R * R) :=
  fct_validate ;;;
  fct_deadtime_check ;;;
  try_except (count_time_body fuel) ZeroDivisionError (ret (1e99, 1e99)).

End FoilCountTime.

(** *** [optimal_count_plan] *)

(** A row of the working copy [df]: the caller's columns plus the
    columns [countTime], [countOrder], [countActivity] and
    [countActUncert] that the permutation loop adds. *)
Record work := mk_work {
  wch : channel;
  countTime : R;
  countOrder : Z;
  countActivity : R;
  countActUncert : R
}.

(** [df = cp.deepcopy(foilParams)] followed by the four column
    initialisations. *)
Definition init_work (c : channel) : work :=
  mk_work c 0 0 (initActivity c) (activityUncert c).

Definition set_countTime (t : R) (r : work) : work :=
  mk_work (wch r) t (countOrder r) (countActivity r) (countActUncert r).
Definition set_countOrder (o : Z) (r : work) : work :=
  mk_work (wch r) (countTime r) o (countActivity r) (countActUncert r).
Definition set_countAct (a u : R) (r : work) : work :=
  mk_work (wch r) (countTime r) (countOrder r) a u.

(** [df.at[rx, col] = v]: update of the row at position [rx]. *)
Definition at_upd (rx : nat) (f : work -> work) (df : list work) : list work :=
  match df !! rx with
  | Some r => <[rx := f r]> df
  | None => df
  end.

(** [max(df[col])]; Python's [max] raises [ValueError] on an empty
    sequence. *)
Definition py_max_R (l : list R) : M R :=
  match l with
  | [] => raise ValueError
  | x :: xs => ret (fold_left Rmax xs x)
  end.
Definition py_max_Z (l : list Z) : M Z :=
  match l with
  | [] => raise ValueError
  | x :: xs => ret (fold_left Z.max xs x)
  end.

(** [df.groupby("foil").get_group(f).index]: the positions of the rows
    of foil [f], in index order. *)
Definition group_index (df : list work) (f : string) : list nat :=
  List.filter (fun rx => match df !! rx with
                         | Some r => String.eqb (foil (wch r)) f
                         | None => false
                         end) (seq 0 (length df)).

(** [itertools.permutations(l)]: the full-length permutations, in
    lexicographic order of the positions in [l]. *)
Fixpoint picks {A} (l : list A) : list (A * list A) :=
  match l with
  | [] => []
  | x :: xs => (x, xs) :: map (fun p => (p.1, x :: p.2)) (picks xs)
  end.

Fixpoint permutations_n {A} (n : nat) (l : list A) : list (list A) :=
  match n with
  | O => [[]]
  | S n' => flat_map (fun p => map (cons p.1) (permutations_n n' p.2)) (picks l)
  end.

Definition permutations {A} (l : list A) : list (list A) :=
  permutations_n (length l) l.

Section OptimalCountPlan.

(** The iteration order of [set(foilParams.foil.tolist())]: Python's
    set order is implementation-defined. *)
Variable set_order : list string -> list string.

(** The absolute efficiency of a channel: the efficiency fit chosen by
    [funcDict]/[funcParamDict] or [func]/[kwargs] times
    [volume_solid_angle(...)/fractional_solid_angle(...)], with the
    warnings those branches print. *)
Variable abs_eff : channel -> M R.

Variables (handleTime background : R) (toMinute : bool) (fuel : nat).

(** The [try] block for one channel: the count time of row [r], or
    [None] when [foil_count_time] raised [AssertionError]. *)
Definition channel_count_time (r : work) (absEff : R) : M (option R) :=
  try_except
    (tt <- foil_count_time (relStat (wch r)) (halfLife (wch r))
             (countActivity r - 3 * countActUncert r) absEff background
             "Bq" 30 fuel ;;
     let t := tt.1 in
     ret (Some (if toMinute then ceil (t / 60) * 60 else t)))
    AssertionError (ret None).

(** The inner [for rx in ...] loop over the channels of one foil, with
    its running maximum [ct]; [break] after an [AssertionError]. *)
Fixpoint count_group (rxs : list nat) (df : list work) (ct : R) : M (list work * R) :=
  match rxs with
  | [] => ret (df, ct)
  | rx :: rest =>
    match df !! rx with
    | None => ret (df, ct)
    | Some _ =>
      o <- py_max_Z (map countOrder df) ;;
      let df := at_upd rx (set_countOrder (o + 1)%Z) df in
      match df !! rx with
      | None => ret (df, ct)
      | Some r =>
        absEff <- abs_eff (wch r) ;;
        t <- channel_count_time r absEff ;;
        match t with
        | None => ret (at_upd rx (set_countTime 1e99) df, ct)
        | Some t =>
          let df := at_upd rx (set_countTime t) df in
          let ct := if Rltb ct t then t else ct in
          m <- py_max_R (map countTime df) ;;
          let df := at_upd rx (set_countTime (m + 1)) df in
          count_group rest df ct
        end
      end
    end
  end.

(** [for rx in df.index: if df.at[rx, 'countTime'] == 0.0: decay ...] *)
Fixpoint decay_uncounted (rows : list work) (dt : R) : M (list work) :=
  match rows with
  | [] => ret []
  | r :: rest =>
    r' <- (if Reqb (countTime r) 0
           then a <- decay (halfLife (wch r)) (countActivity r) dt "Bq" ;;
                u <- decay (halfLife (wch r)) (countActUncert r) dt "Bq" ;;
                ret (set_countAct a u r)
           else ret r) ;;
    rest' <- decay_uncounted rest dt ;;
    ret (r' :: rest')
  end.

(** [for f in order: ...]: the count time of each foil in turn,
    accumulated in [tmpTotal]. *)
Fixpoint count_order (order : list string) (df : list work) (tmpTotal : R) : M (list work * R) :=
  match order with
  | [] => ret (df, tmpTotal)
  | f :: rest =>
    let rxs := group_index df f in
    dc <- count_group rxs df 0 ;;
    let '(df, ct) := dc in
    let tmpTotal := tmpTotal + ct in
    let df := fold_left (fun df rx => at_upd rx (set_countTime ct) df) rxs df in
    df <- decay_uncounted df (ct + handleTime) ;;
    count_order rest df tmpTotal
  end.

(** The best candidate so far: [(bestOrder, totalTime, bestDF)];
    [None] while [totalTime] is still [np.inf]. *)
Definition best := option (list string * R * list work).

(** [if tmpTotal < totalTime: bestOrder = order; totalTime = tmpTotal;
    bestDF = df] *)
Definition better (b : best) (order : list string) (tmpTotal : R) (df : list work) : best :=
  match b with
  | None => Some (order, tmpTotal, df)
  | Some (_, totalTime, _) =>
    if Rltb tmpTotal totalTime then Some (order, tmpTotal, df) else b
  end.

(** [for order in list(permutations(...)):] over the caller's frame at
    [l]. *)
Fixpoint search (l : loc) (orders : list (list string)) (b : best) : M best :=
  match orders with
  | [] => ret b
  | order :: rest =>
    fp <- load l ;;
    let df := map init_work fp in
    r <- count_order order df 0 ;;
    search l rest (better b order r.2 r.1)
  end.

(** The unit conversion at the top of [optimal_count_plan]: an in-place
    column assignment on the caller's DataFrame. *)
Definition scale_initActivity (k : R) (c : channel) : channel :=
  mk_channel (foil c) (gammaEnergy c) (halfLife c) (initActivity c * k)
    (activityUncert c) (det2FoilDist c) (relStat c) (foilR c).
Definition scale_activityUncert (k : R) (c : channel) : channel :=
  mk_channel (foil c) (gammaEnergy c) (halfLife c) (initActivity c)
    (activityUncert c * k) (det2FoilDist c) (relStat c) (foilR c).

Definition convert_units (l : loc) (units : string) : M unit :=
  if String.eqb units "uCi" then
    fp <- load l ;; assign l (map (scale_initActivity (1e-6 * 3.7e10)) fp) ;;;
    fp <- load l ;; assign l (map (scale_activityUncert (1e-6 * 3.7e10)) fp)
  else if String.eqb units "Ci" then
    fp <- load l ;; assign l (map (scale_initActivity 3.7e10) fp) ;;;
    fp <- load l ;; assign l (map (scale_activityUncert 3.7e10) fp)
  else ret tt.

(** [bestDF.sort_values(by='countOrder')]; rows with equal [countOrder]
    keep their index order here. *)
Definition countOrder_le (r1 r2 : work) : Prop := (countOrder r1 <= countOrder r2)%Z.

#[local] Instance countOrder_le_dec : RelDecision countOrder_le :=
  fun r1 r2 => decide ((countOrder r1 <= countOrder r2)%Z).

Definition sort_by_countOrder (df : list work) : list work :=
  merge_sort countOrder_le df.

(** [optimal_count_plan(foilParams, handleTime, detR, background, units,
    toMinute, ...)] with [foilParams] the DataFrame at location [l];
    returns [(bestDF.sort_values(by='countOrder'), bestOrder, totalTime)].
    [bestOrder] is unbound (UnboundLocalError) if no candidate was kept. *)
Definition optimal_count_plan (l : loc) (units : string)
    : M (list work * list string * R) :=
  convert_units l units ;;;
  fp <- load l ;;
  let orders := permutations (set_order (map foil fp)) in
  b <- search l orders None ;;
  match b with
  | None => raise UnboundLocalError
  | Some (bestOrder, totalTime, bestDF) =>
    ret (sort_by_countOrder bestDF, bestOrder, totalTime)
  end.

End OptimalCountPlan.

End Counting.


(** * Proofs *)

(** ** Evaluating the monad *)
Module PyFacts.
Import Frame Py.

Lemma Rltb_true x y : x < y -> Rltb x y = true.
Proof. intros H. unfold Rltb. destruct (Rlt_dec x y); [reflexivity | lra]. Qed.

Lemma Rltb_false x y : y <= x -> Rltb x y = false.
Proof. intros H. unfold Rltb. destruct (Rlt_dec x y); [lra | reflexivity]. Qed.

Lemma Rleb_true x y : x <= y -> Rleb x y = true.
Proof. intros H. unfold Rleb. destruct (Rle_dec x y); [reflexivity | lra]. Qed.

Lemma Rleb_false x y : y < x -> Rleb x y = false.
Proof. intros H. unfold Rleb. destruct (Rle_dec x y); [lra | reflexivity]. Qed.

Lemma Reqb_true x y : x = y -> Reqb x y = true.
Proof. intros H. unfold Reqb. destruct (Req_dec_T x y); [reflexivity | contradiction]. Qed.

Lemma Reqb_false x y : x <> y -> Reqb x y = false.
Proof. intros H. unfold Reqb. destruct (Req_dec_T x y); [contradiction | reflexivity]. Qed.

Lemma pdiv_ok x y w : y <> 0 -> pdiv x y w = (Ok (x / y), w).
Proof. intros H. unfold pdiv. rewrite Reqb_false by exact H. reflexivity. Qed.

Lemma pdiv_zero x w : pdiv x 0 w = (Exc ZeroDivisionError, w).
Proof. unfold pdiv. rewrite Reqb_true by reflexivity. reflexivity. Qed.

Lemma psqrt_ok x w : 0 <= x -> psqrt x w = (Ok (sqrt x), w).
Proof. intros H. unfold psqrt. rewrite Rltb_false by exact H. reflexivity. Qed.

Lemma psqrt_neg x w : x < 0 -> psqrt x w = (Exc ValueError, w).
Proof. intros H. unfold psqrt. rewrite Rltb_true by exact H. reflexivity. Qed.

Lemma bind_ok {A B} (m : M A) (k : A -> M B) w a w' :
  m w = (Ok a, w') -> bind m k w = k a w'.
Proof. intros H. unfold bind. rewrite H. reflexivity. Qed.

Lemma bind_exc {A B} (m : M A) (k : A -> M B) w e w' :
  m w = (Exc e, w') -> bind m k w = (Exc e, w').
Proof. intros H. unfold bind. rewrite H. reflexivity. Qed.

Lemma py_assert_true w : py_assert true w = (Ok tt, w).
Proof. reflexivity. Qed.

Lemma py_assert_false w : py_assert false w = (Exc AssertionError, w).
Proof. reflexivity. Qed.

End PyFacts.

(** ** [decay] and [activity] *)
Module DecayFacts.
Import Frame Py BasicNuclearCalcs PyFacts.

Lemma get_decay_const_ok h w :
  0 < h -> get_decay_const h w = (Ok (ln 2 / h), w).
Proof.
  intros Hh. unfold get_decay_const.
  rewrite (bind_ok _ _ w tt w) by (rewrite Rltb_true by lra; reflexivity).
  apply pdiv_ok. lra.
Qed.

(** The unit strings [decay] knows. *)
Definition known_units (u : string) : Prop :=
  u = "uCi" \/ u = "Ci" \/ u = "Bq" \/ u = "atoms".

(** [decay] on valid arguments: the converted quantity decayed by
    [exp(-lam t)], printing the warning for an unknown unit string. *)
Lemma decay_ok h n t u w :
  0 < h -> 0 <= n -> 0 <= t ->
  decay h n t u w =
    (Ok (Counting.to_base u n * exp (- (ln 2 / h) * t)),
     if decide (known_units u) then w
     else mk_world (store w) (stdout w ++ [decay_warning])).
Proof.
  intros Hh Hn Ht. unfold decay.
  rewrite (bind_ok _ _ w tt w) by (rewrite Rltb_true by lra; reflexivity).
  rewrite (bind_ok _ _ w tt w) by (rewrite Rleb_true by lra; reflexivity).
  rewrite (bind_ok _ _ w tt w) by (rewrite Rleb_true by lra; reflexivity).
  unfold Counting.to_base, known_units.
  destruct (String.eqb u "uCi") eqn:E1;
  [apply String.eqb_eq in E1; subst u; cbn [bind ret];
   erewrite bind_ok by (apply get_decay_const_ok; exact Hh); cbn [ret];
   rewrite decide_True by auto; reflexivity|].
  destruct (String.eqb u "Ci") eqn:E2;
  [apply String.eqb_eq in E2; subst u; cbn [bind ret];
   erewrite bind_ok by (apply get_decay_const_ok; exact Hh); cbn [ret];
   rewrite decide_True by auto; reflexivity|].
  apply String.eqb_neq in E1, E2.
  destruct (String.eqb u "Bq") eqn:E3;
  [apply String.eqb_eq in E3; subst u; cbn [bind ret negb andb];
   erewrite bind_ok by (apply get_decay_const_ok; exact Hh); cbn [ret];
   rewrite decide_True by auto; reflexivity|].
  destruct (String.eqb u "atoms") eqn:E4;
  [apply String.eqb_eq in E4; subst u; cbn [bind ret negb andb];
   erewrite bind_ok by (apply get_decay_const_ok; exact Hh); cbn [ret];
   rewrite decide_True by auto; reflexivity|].
  apply String.eqb_neq in E3, E4.
  cbn [bind ret negb andb print store stdout].
  erewrite bind_ok by (apply get_decay_const_ok; exact Hh); cbn [ret].
  rewrite decide_False by (intros [?|[?|[?|?]]]; congruence). reflexivity.
Qed.

Definition w0 : world := mk_world (fun _ => []) [].

Lemma ln2_pos : 0 < ln 2.
Proof. pose proof ln_lt_2. lra. Qed.

Lemma exp_le_mono x y : x <= y -> exp x <= exp y.
Proof.
  intros H. destruct (Rle_lt_or_eq_dec _ _ H) as [Hlt | ->].
  - left. apply exp_increasing. exact Hlt.
  - right. reflexivity.
Qed.

(** C7 (amended): with its default units ['uCi'], [decay(halfLife, n, t)]
    converts [n] from microcuries to becquerels: it is non-increasing in
    [t] and returns [37000 n] at [t = 0]; it returns [n] at [t = 0] when
    called with [units='Bq']. *)
Theorem decay_default_units_nonincreasing (h n t1 t2 : R) (w : world) :
  0 < h -> 0 <= n -> 0 <= t1 -> t1 <= t2 ->
  exists v1 v2,
    fst (decay h n t1 decay_default_units w) = Ok v1 /\
    fst (decay h n t2 decay_default_units w) = Ok v2 /\
    v2 <= v1 /\
    fst (decay h n 0 decay_default_units w) = Ok (37000 * n) /\
    fst (decay h n 0 "Bq" w) = Ok n.
Proof.
  intros Hh Hn Ht1 Ht12.
  exists (Counting.to_base decay_default_units n * exp (- (ln 2 / h) * t1)),
         (Counting.to_base decay_default_units n * exp (- (ln 2 / h) * t2)).
  rewrite !decay_ok by lra. cbn [fst].
  split; [reflexivity|]. split; [reflexivity|]. split; [|split].
  - apply Rmult_le_compat_l.
    + unfold Counting.to_base, decay_default_units; simpl. lra.
    + apply exp_le_mono.
      assert (0 < ln 2 / h) by (apply Rdiv_lt_0_compat; [apply ln2_pos | exact Hh]).
      nra.
  - unfold Counting.to_base, decay_default_units; simpl.
    rewrite Rmult_0_r, exp_0. f_equal. lra.
  - unfold Counting.to_base; simpl. rewrite Rmult_0_r, exp_0. f_equal. lra.
Qed.

(** C7 counterexample: [decay(1, 1, 0)] with the default units is
    [37000], not [1]. *)
Lemma decay_default_units_at_zero_counterexample :
  fst (decay 1 1 0 decay_default_units w0) = Ok 37000 /\
  fst (decay 1 1 0 decay_default_units w0) <> Ok 1.
Proof.
  rewrite decay_ok by lra. cbn [fst].
  unfold Counting.to_base, decay_default_units; simpl.
  rewrite Rmult_0_r, exp_0.
  split.
  - f_equal. lra.
  - intros H. injection H. lra.
Qed.

(** C8: for a unit string outside [{'uCi', 'Ci', 'Bq', 'atoms'}] and
    valid [halfLife], [n], [t], [decay] prints its warning, converts
    nothing and returns [n e^(-lam t)], the value it returns for ['Bq']
    and ['atoms']; it raises no exception. *)
Theorem decay_unknown_units_tolerated (h n t : R) (u : string) (w : world) :
  ~ known_units u -> 0 < h -> 0 <= n -> 0 <= t ->
  decay h n t u w =
    (Ok (n * exp (- (ln 2 / h) * t)),
     mk_world (store w) (stdout w ++ [decay_warning])) /\
  fst (decay h n t u w) = fst (decay h n t "Bq" w) /\
  fst (decay h n t u w) = fst (decay h n t "atoms" w).
Proof.
  intros Hu Hh Hn Ht.
  rewrite !decay_ok by assumption.
  rewrite decide_False by exact Hu.
  assert (Hb : Counting.to_base u n = n).
  { unfold Counting.to_base.
    destruct (String.eqb_spec u "uCi"); [exfalso; apply Hu; left; assumption|].
    destruct (String.eqb_spec u "Ci"); [exfalso; apply Hu; right; left; assumption|].
    reflexivity. }
  rewrite Hb. cbn [fst]. unfold Counting.to_base. simpl.
  split; [reflexivity | split; reflexivity].
Qed.

Lemma decay_unknown_units_tolerated_witness :
  ~ known_units "Frogs" /\ 0 < 1e10 /\ 0 <= 1000 /\ 0 <= 1 /\
  decay 1e10 1000 1 "Frogs" w0 =
    (Ok (1000 * exp (- (ln 2 / 1e10) * 1)),
     mk_world (store w0) (stdout w0 ++ [decay_warning])) /\
  fst (decay 1e10 1000 1 "Frogs" w0) = fst (decay 1e10 1000 1 "Bq" w0) /\
  fst (decay 1e10 1000 1 "Frogs" w0) = fst (decay 1e10 1000 1 "atoms" w0).
Proof.
  assert (Hu : ~ known_units "Frogs")
    by (unfold known_units; intros [H|[H|[H|H]]]; discriminate H).
  split; [exact Hu|]. split; [lra|]. split; [lra|]. split; [lra|].
  apply (decay_unknown_units_tolerated 1e10 1000 1 "Frogs" w0); [exact Hu | lra | lra | lra].
Defined.

Lemma decay_default_units_nonincreasing_witness :
  exists v1 v2,
    fst (decay 100 1000 0 decay_default_units w0) = Ok v1 /\
    fst (decay 100 1000 100 decay_default_units w0) = Ok v2 /\
    v2 <= v1 /\
    fst (decay 100 1000 0 decay_default_units w0) = Ok (37000 * 1000) /\
    fst (decay 100 1000 0 "Bq" w0) = Ok 1000.
Proof.
  apply (decay_default_units_nonincreasing 100 1000 0 100 w0); lra.
Defined.

End DecayFacts.

(** ** [ge_peakcounts] *)
Module PeakCountsFacts.
Import Py Counting PyFacts.

Section WithGamma.
Variable gamma : R -> R.
(** [scipy.special.gamma] is positive on the positive reals. *)
Hypothesis gamma_pos : forall x, 0 < x -> 0 < gamma x.

(** C6: [ge_peakcounts] is [t1 + t2] with [t1 = amp width sqrt(2 pi)] and
    [t2 = width skewAmp Gamma(r) Gamma(4 - r) / 6], except that it is
    exactly [t1] when [t2 > t1]; for non-negative amplitude, width and
    skew amplitude and a skew range in (0, 4) the result lies in
    [[t1, 2 t1]] and is non-negative. *)
Theorem ge_peakcounts_clamped (amp width skewAmp skewRange : R) :
  let t1 := amp * width * sqrt (2 * PI) in
  let t2 := width * skewAmp * (gamma skewRange * gamma (4 - skewRange)) / 6 in
  (t2 > t1 -> ge_peakcounts gamma amp width skewAmp skewRange = t1) /\
  (t2 <= t1 -> ge_peakcounts gamma amp width skewAmp skewRange = t1 + t2) /\
  (0 <= amp -> 0 <= width -> 0 <= skewAmp -> 0 < skewRange < 4 ->
   t1 <= ge_peakcounts gamma amp width skewAmp skewRange <= 2 * t1 /\
   0 <= ge_peakcounts gamma amp width skewAmp skewRange).
Proof.
  intros t1 t2. unfold ge_peakcounts. fold t1 t2.
  split; [|split].
  - intros H. rewrite Rltb_true by exact H. reflexivity.
  - intros H. rewrite Rltb_false by exact H. reflexivity.
  - intros Ha Hw Hs Hr.
    assert (Ht1 : 0 <= t1).
    { unfold t1. pose proof (sqrt_pos (2 * PI)).
      apply Rmult_le_pos; [apply Rmult_le_pos|]; assumption. }
    assert (Ht2 : 0 <= t2).
    { unfold t2.
      pose proof (gamma_pos skewRange ltac:(lra)).
      pose proof (gamma_pos (4 - skewRange) ltac:(lra)).
      assert (0 <= width * skewAmp) by (apply Rmult_le_pos; assumption).
      assert (0 <= gamma skewRange * gamma (4 - skewRange)) by nra.
      unfold Rdiv. apply Rmult_le_pos; [apply Rmult_le_pos|]; lra. }
    unfold Rltb. destruct (Rlt_dec t1 t2); lra.
Qed.

End WithGamma.

Lemma ge_peakcounts_clamped_witness :
  (forall x, 0 < x -> 0 < (fun _ : R => 1) x) /\
  (0 <= 1 -> 0 <= 1 -> 0 <= 1 -> 0 < 1 < 4 ->
   1 * 1 * sqrt (2 * PI) <= ge_peakcounts (fun _ => 1) 1 1 1 1 <= 2 * (1 * 1 * sqrt (2 * PI)) /\
   0 <= ge_peakcounts (fun _ => 1) 1 1 1 1).
Proof.
  assert (Hg : forall x, 0 < x -> 0 < (fun _ : R => 1) x) by (intros; lra).
  split; [exact Hg|].
  exact (proj2 (proj2 (ge_peakcounts_clamped (fun _ => 1) Hg 1 1 1 1))).
Defined.

End PeakCountsFacts.

(** ** [get_peak_windows] *)
Module PeakWindowFacts.
Import Counting.
Local Open Scope Z_scope.

Lemma py_get_in (ch : list Z) (i c : Z) :
  0 <= i -> ch !! Z.to_nat i = Some c -> py_get ch i = Some c.
Proof.
  intros Hi Hc. unfold py_get.
  replace (i <? 0) with false by (symmetry; apply Z.ltb_ge; lia).
  replace (0 <=? i) with true by (symmetry; apply Z.leb_le; lia).
  exact Hc.
Qed.

Lemma py_get_minus_one (ch : list Z) (c : Z) :
  length ch = 1%nat -> ch !! 0%nat = Some c -> py_get ch (0 - 1) = Some c.
Proof.
  intros Hl Hc. unfold py_get. rewrite Hl. simpl. exact Hc.
Qed.

Section Params.
Variables (maxWindow peakWidth minWindow : Z).

(** The half-width on a side whose neighbour is [d] channels away. *)
Definition half (d : Z) : Z :=
  if bool_decide (d < maxWindow + peakWidth)
  then Z.max (d - peakWidth) minWindow else maxWindow.

Lemma upper_branch (c cn : Z) :
  (if bool_decide (cn - peakWidth < c + maxWindow)
   then c + Z.max (cn - peakWidth - c) minWindow else c + maxWindow)
  = c + half (cn - c).
Proof.
  unfold half. repeat case_bool_decide; lia.
Qed.

Lemma lower_branch (c cp : Z) :
  (if bool_decide (c - maxWindow < cp + peakWidth)
   then c - Z.max (c - peakWidth - cp) minWindow else c - maxWindow)
  = c - half (c - cp).
Proof.
  unfold half. repeat case_bool_decide; lia.
Qed.

Ltac blocks_simpl :=
  unfold window_at, window_block1, window_block2, window_block3, window_block4;
  repeat (case_bool_decide; try lia); cbn [negb andb].

Lemma window_at_first (ch : list Z) (c cn : Z) :
  (2 <= length ch)%nat -> ch !! 0%nat = Some c -> ch !! 1%nat = Some cn ->
  window_at maxWindow peakWidth minWindow ch 0 = Some (c - maxWindow, c + half (cn - c)).
Proof.
  intros Hl Hc Hn. blocks_simpl.
  rewrite (py_get_in ch 0 c) by (simpl; auto with lia).
  rewrite (py_get_in ch (0 + 1) cn) by (simpl; auto with lia).
  simpl. rewrite upper_branch. reflexivity.
Qed.

Lemma window_at_single (ch : list Z) (c : Z) :
  0 < maxWindow + peakWidth ->
  length ch = 1%nat -> ch !! 0%nat = Some c ->
  window_at maxWindow peakWidth minWindow ch 0 =
    Some (c - Z.max (- peakWidth) minWindow, c + maxWindow).
Proof.
  intros Hp Hl Hc. unfold window_at, window_block1, window_block2, window_block3, window_block4.
  rewrite Hl. simpl.
  rewrite (py_get_in ch 0 c) by (simpl; auto with lia). simpl.
  rewrite (py_get_minus_one ch c Hl Hc). simpl.
  case_bool_decide; [do 2 f_equal; lia | lia].
Qed.

Lemma window_at_middle (ch : list Z) (i : Z) (cp c cn : Z) :
  0 < i -> i < Z.of_nat (length ch) - 1 ->
  ch !! Z.to_nat (i - 1) = Some cp -> ch !! Z.to_nat i = Some c ->
  ch !! Z.to_nat (i + 1) = Some cn ->
  window_at maxWindow peakWidth minWindow ch i =
    Some (c - half (c - cp), c + half (cn - c)).
Proof.
  intros H0 H1 Hp Hc Hn. blocks_simpl.
  rewrite (py_get_in ch i c) by (auto with lia). simpl.
  rewrite (py_get_in ch (i - 1) cp) by (auto with lia). simpl.
  rewrite (py_get_in ch (i + 1) cn) by (auto with lia). simpl.
  rewrite upper_branch, lower_branch. reflexivity.
Qed.

Lemma window_at_last (ch : list Z) (i : Z) (cp c : Z) :
  0 < i -> i = Z.of_nat (length ch) - 1 ->
  ch !! Z.to_nat (i - 1) = Some cp -> ch !! Z.to_nat i = Some c ->
  window_at maxWindow peakWidth minWindow ch i =
    Some (c - half (c - cp), c + maxWindow).
Proof.
  intros H0 H1 Hp Hc. blocks_simpl.
  rewrite (py_get_in ch i c) by (auto with lia). simpl.
  rewrite (py_get_in ch (i - 1) cp) by (auto with lia). simpl.
  rewrite lower_branch. reflexivity.
Qed.

End Params.

(** Inserting the entries of a list of indices one after the other. *)
Section FoldInsert.
Context {V : Type} (kf : Z -> Z) (wf : Z -> V).

Definition insert_all (m0 : gmap Z V) (is : list Z) : gmap Z V :=
  foldl (fun m i => <[kf i := wf i]> m) m0 is.

Lemma insert_all_notin (m0 : gmap Z V) (is : list Z) (k : Z) :
  k ∉ map kf is -> insert_all m0 is !! k = m0 !! k.
Proof.
  revert m0. induction is as [|i is IH]; intros m0 Hk; [reflexivity|].
  simpl in Hk. apply not_elem_of_cons in Hk as [Hki Hk].
  unfold insert_all. simpl. fold (insert_all (<[kf i := wf i]> m0) is).
  rewrite IH by exact Hk. apply lookup_insert_ne. congruence.
Qed.

Lemma insert_all_in (m0 : gmap Z V) (is : list Z) (j : Z) :
  NoDup (map kf is) -> j ∈ is -> insert_all m0 is !! kf j = Some (wf j).
Proof.
  revert m0. induction is as [|i is IH]; intros m0 Hnd Hj.
  - apply not_elem_of_nil in Hj. contradiction.
  - simpl in Hnd. apply NoDup_cons in Hnd as [Hni Hnd].
    unfold insert_all. simpl. fold (insert_all (<[kf i := wf i]> m0) is).
    destruct (decide (j ∈ is)) as [Hin|Hout].
    + apply IH; assumption.
    + apply elem_of_cons in Hj as [->|Hj]; [|contradiction].
      rewrite insert_all_notin by exact Hni. apply lookup_insert_eq.
Qed.

End FoldInsert.

Section Fold.
Variables (maxWindow peakWidth minWindow : Z) (ch : list Z).

Definition key_of (i : Z) : Z := default 0 (py_get ch i).
Definition win_of (i : Z) : Z * Z :=
  default (0, 0) (window_at maxWindow peakWidth minWindow ch i).

Lemma get_peak_windows_fold (is : list Z) (m0 : gmap Z (Z * Z)) :
  (forall i, i ∈ is -> is_Some (py_get ch i) /\
                      is_Some (window_at maxWindow peakWidth minWindow ch i)) ->
  foldl (fun acc i =>
           windows ← acc;
           c ← py_get ch i;
           w ← window_at maxWindow peakWidth minWindow ch i;
           Some (<[c := w]> windows)) (Some m0) is
  = Some (insert_all key_of win_of m0 is).
Proof.
  revert m0. induction is as [|i is IH]; intros m0 Hall; [reflexivity|].
  destruct (Hall i ltac:(left)) as [[c Hc] [w Hw]].
  assert (Hk : key_of i = c) by (unfold key_of; rewrite Hc; reflexivity).
  assert (Hv : win_of i = w) by (unfold win_of; rewrite Hw; reflexivity).
  cbn [foldl]. unfold mbind at 2 3 4, option_bind at 2 3 4.
  rewrite Hc, Hw.
  unfold insert_all. cbn [foldl]. fold (insert_all key_of win_of (<[key_of i := win_of i]> m0) is).
  rewrite Hk, Hv.
  apply IH. intros j Hj. apply Hall. right. exact Hj.
Qed.

Lemma keys_are_channels :
  map key_of (seqZ 0 (Z.of_nat (length ch))) = ch.
Proof.
  apply list_eq. intros i.
  rewrite list_lookup_fmap.
  destruct (decide (i < length ch)%nat) as [Hi|Hi].
  - destruct (lookup_lt_is_Some_2 ch i Hi) as [c Hc].
    assert (Hs : seqZ 0 (Z.of_nat (length ch)) !! i = Some (Z.of_nat i))
      by (apply lookup_seqZ; lia).
    rewrite Hs, Hc. simpl. unfold key_of.
    rewrite (py_get_in ch (Z.of_nat i) c) by (rewrite ?Nat2Z.id; auto with lia).
    reflexivity.
  - rewrite (lookup_ge_None_2 ch i) by lia.
    rewrite (lookup_ge_None_2 (seqZ _ _) i); [reflexivity|].
    rewrite length_seqZ. lia.
Qed.

End Fold.

(** The peak channels are strictly increasing. *)
Definition strictly_increasing (ch : list Z) : Prop :=
  forall (i j : nat) (a b : Z), (i < j)%nat -> ch !! i = Some a -> ch !! j = Some b -> a < b.

Lemma strictly_increasing_NoDup (ch : list Z) :
  strictly_increasing ch -> NoDup ch.
Proof.
  intros Hs. apply NoDup_alt. intros i j x Hi Hj.
  destruct (Nat.lt_trichotomy i j) as [Hlt|[Heq|Hgt]]; [|exact Heq|].
  - pose proof (Hs i j x x Hlt Hi Hj). lia.
  - pose proof (Hs j i x x Hgt Hj Hi). lia.
Qed.

Section Bounds.
Variables (maxW pw minW : Z).
Hypotheses (Hpw : 0 < pw) (Hmin : pw < minW) (Hmax : minW <= maxW).

Lemma half_ge (d : Z) : minW <= half maxW pw minW d.
Proof. unfold half. case_bool_decide; lia. Qed.

Lemma window_at_props (ch : list Z) (i : nat) (c : Z) :
  ch !! i = Some c ->
  exists lo hi, window_at maxW pw minW ch (Z.of_nat i) = Some (lo, hi) /\
    (forall cn, ch !! S i = Some cn -> hi = c + half maxW pw minW (cn - c)) /\
    (forall cp, (0 < i)%nat -> ch !! (i - 1)%nat = Some cp ->
                lo = c - half maxW pw minW (c - cp)) /\
    (ch !! S i = None -> hi = c + maxW) /\
    (i = 0%nat -> (1 < length ch)%nat -> lo = c - maxW) /\
    (length ch = 1%nat -> lo = c - minW).
Proof.
  intros Hc. pose proof (lookup_lt_Some _ _ _ Hc) as Hi.
  destruct (decide (length ch = 1%nat)) as [H1|H1].
  - assert (i = 0%nat) as -> by lia.
    exists (c - Z.max (- pw) minW), (c + maxW).
    split; [apply window_at_single; auto; lia|].
    rewrite (lookup_ge_None_2 ch 1) by lia.
    repeat split; intros; try discriminate; try lia.
  - destruct i as [|k].
    + destruct (lookup_lt_is_Some_2 ch 1 ltac:(lia)) as [cn Hn].
      exists (c - maxW), (c + half maxW pw minW (cn - c)).
      split; [apply window_at_first; auto; lia|].
      repeat split; intros; try congruence; try lia.
    + destruct (lookup_lt_is_Some_2 ch k ltac:(lia)) as [cp Hp].
      simpl. rewrite Nat.sub_0_r.
      destruct (decide (S (S k) < length ch)%nat) as [Hm|Hm].
      * destruct (lookup_lt_is_Some_2 ch (S (S k)) Hm) as [cn Hn].
        exists (c - half maxW pw minW (c - cp)), (c + half maxW pw minW (cn - c)).
        split.
        { apply window_at_middle; try lia;
            [ replace (Z.to_nat (Z.of_nat (S k) - 1)) with k by lia; exact Hp
            | rewrite Nat2Z.id; exact Hc
            | replace (Z.to_nat (Z.of_nat (S k) + 1)) with (S (S k)) by lia; exact Hn ]. }
        repeat split; intros; try congruence; try lia.
      * exists (c - half maxW pw minW (c - cp)), (c + maxW).
        split.
        { apply window_at_last; try lia;
            [ replace (Z.to_nat (Z.of_nat (S k) - 1)) with k by lia; exact Hp
            | rewrite Nat2Z.id; exact Hc ]. }
        rewrite (lookup_ge_None_2 ch (S (S k))) by lia.
        repeat split; intros; try congruence; try lia.
Qed.

Lemma half_far (d : Z) : maxW + pw <= d -> half maxW pw minW d = maxW.
Proof. intros Hd. unfold half. case_bool_decide; lia. Qed.

Lemma get_peak_windows_lookup (ch : list Z) :
  strictly_increasing ch ->
  exists m, get_peak_windows maxW pw minW ch = Some m /\
    forall i c, ch !! i = Some c ->
      m !! c = window_at maxW pw minW ch (Z.of_nat i).
Proof.
  intros Hinc.
  assert (Hall : forall j, j ∈ seqZ 0 (Z.of_nat (length ch)) ->
            is_Some (py_get ch j) /\ is_Some (window_at maxW pw minW ch j)).
  { intros j Hj. apply elem_of_seqZ in Hj.
    destruct (lookup_lt_is_Some_2 ch (Z.to_nat j) ltac:(lia)) as [c Hc].
    destruct (window_at_props ch (Z.to_nat j) c Hc) as (lo & hi & Hw & _).
    rewrite Z2Nat.id in Hw by lia.
    split; [exists c; apply py_get_in; auto; lia | exists (lo, hi); exact Hw]. }
  eexists. split.
  { unfold get_peak_windows. apply get_peak_windows_fold. exact Hall. }
  intros i c Hc.
  assert (Hk : key_of ch (Z.of_nat i) = c).
  { unfold key_of. rewrite (py_get_in ch (Z.of_nat i) c) by (rewrite ?Nat2Z.id; auto with lia).
    reflexivity. }
  pose proof (lookup_lt_Some _ _ _ Hc) as Hi.
  destruct (window_at_props ch i c Hc) as (lo & hi & Hw & _).
  rewrite <- Hk, Hw.
  replace (Some (lo, hi)) with (Some (win_of maxW pw minW ch (Z.of_nat i)))
    by (unfold win_of; rewrite Hw; reflexivity).
  apply insert_all_in.
  - rewrite keys_are_channels. apply strictly_increasing_NoDup. exact Hinc.
  - apply elem_of_seqZ. lia.
Qed.

End Bounds.

Lemma StronglySorted_strictly_increasing (ch : list Z) :
  StronglySorted Z.lt ch -> strictly_increasing ch.
Proof.
  induction 1 as [|x l Hl IH Hx]; intros i j a b Hij Ha Hb.
  - rewrite lookup_nil in Ha. discriminate.
  - destruct j as [|j]; [lia|]. simpl in Hb.
    destruct i as [|i]; simpl in Ha.
    + injection Ha as <-. eapply Forall_lookup_1 in Hx; [exact Hx | exact Hb].
    + apply (IH i j); auto with lia.
Qed.

(** The peaks of the repository's test of [get_peak_windows]. *)
Definition test_peaks : list Z :=
  [138; 160; 171; 182; 195; 210; 291; 302; 418; 720; 789; 800; 869;
   927; 1007; 1018; 1138].

(** What the dict [m] holds for the peaks [ch]: for the peak [c] at
    index [i], a window [(lo, hi)] around [c] at least [2 minW] wide; its
    upper end and the lower end of the next peak's window [cn] both lie
    [half (cn - c)] away from their peaks, so the two overlap whenever
    [cn - c < 2 minW]; with at least two peaks, an isolated peak gets
    [(c - maxW, c + maxW)]; a lone peak gets [(c - minW, c + maxW)]. *)
Definition windows_ok (maxW pw minW : Z) (ch : list Z) (m : gmap Z (Z * Z)) : Prop :=
  forall i c, ch !! i = Some c ->
    exists lo hi, m !! c = Some (lo, hi) /\
      lo < c < hi /\ 2 * minW <= hi - lo /\
      (forall cn, ch !! S i = Some cn ->
         hi = c + half maxW pw minW (cn - c) /\
         exists lo' hi', m !! cn = Some (lo', hi') /\
           lo' = cn - half maxW pw minW (cn - c) /\
           (cn - c < 2 * minW -> lo' < hi)) /\
      ((1 < length ch)%nat ->
         (forall cn, ch !! S i = Some cn -> 2 * maxW + pw < cn - c) ->
         (forall cp, (0 < i)%nat -> ch !! (i - 1)%nat = Some cp ->
                     2 * maxW + pw < c - cp) ->
         lo = c - maxW /\ hi = c + maxW) /\
      (length ch = 1%nat -> lo = c - minW /\ hi = c + maxW).

(** For strictly increasing peaks and
    [0 < peakWidth < minWindow <= maxWindow], [get_peak_windows] returns a
    dict whose window for every peak contains the peak and is at least
    [2 minWindow] wide; neighbouring windows are not disjoint in general:
    they overlap whenever two peaks are less than [2 minWindow] apart. With
    two peaks or more, a peak whose neighbours are farther than
    [2 maxWindow + peakWidth] gets exactly [(peak - maxWindow, peak +
    maxWindow)]; a lone peak gets [(peak - minWindow, peak + maxWindow)]. *)
Theorem get_peak_windows_bounds (maxW pw minW : Z) (ch : list Z) :
  strictly_increasing ch -> 0 < pw < minW -> minW <= maxW ->
  exists m, get_peak_windows maxW pw minW ch = Some m /\ windows_ok maxW pw minW ch m.
Proof.
  intros Hinc [Hpw Hmin] Hmax.
  assert (HG : forall d, minW <= half maxW pw minW d) by (intros; apply half_ge; lia).
  assert (HF : forall d, maxW + pw <= d -> half maxW pw minW d = maxW)
    by (intros; apply half_far; lia).
  destruct (get_peak_windows_lookup maxW pw minW ltac:(lia) ltac:(lia) ltac:(lia) ch Hinc)
    as (m & Hg & Hl).
  exists m. split; [exact Hg|].
  intros i c Hc.
  destruct (window_at_props maxW pw minW ltac:(lia) ltac:(lia) ltac:(lia) ch i c Hc)
    as (lo & hi & Hw & Hn & Hp & Hlast & Hfirst & Hsingle).
  pose proof (lookup_lt_Some _ _ _ Hc) as Hi.
  exists lo, hi.
  assert (Hhi : c + minW <= hi).
  { destruct (ch !! S i) as [cn|] eqn:En.
    - rewrite (Hn cn eq_refl). specialize (HG (cn - c)). lia.
    - rewrite (Hlast eq_refl). lia. }
  assert (Hlo : lo <= c - minW).
  { destruct i as [|k].
    - destruct (decide (length ch = 1%nat)) as [H1|H1].
      + rewrite (Hsingle H1). lia.
      + rewrite (Hfirst eq_refl ltac:(lia)). lia.
    - destruct (lookup_lt_is_Some_2 ch k ltac:(lia)) as [cp Ep].
      rewrite (Hp cp ltac:(lia) ltac:(replace (S k - 1)%nat with k by lia; exact Ep)).
      specialize (HG (c - cp)). lia. }
  split; [rewrite (Hl i c Hc), Hw; reflexivity|].
  split; [lia|]. split; [lia|]. split; [|split].
  - intros cn En. split; [exact (Hn cn En)|].
    destruct (window_at_props maxW pw minW ltac:(lia) ltac:(lia) ltac:(lia) ch (S i) cn En)
      as (lo' & hi' & Hw' & _ & Hp' & _).
    exists lo', hi'.
    assert (Hlo' : lo' = cn - half maxW pw minW (cn - c))
      by (apply Hp'; [lia | replace (S i - 1)%nat with i by lia; exact Hc]).
    split; [rewrite (Hl (S i) cn En), Hw'; reflexivity|]. split; [exact Hlo'|].
    intros Hd. rewrite (Hn cn En). specialize (HG (cn - c)). lia.
  - intros Hlen Hfn Hfp. split.
    + destruct i as [|k]; [exact (Hfirst eq_refl Hlen)|].
      destruct (lookup_lt_is_Some_2 ch k ltac:(lia)) as [cp Ep].
      assert (Ep' : ch !! (S k - 1)%nat = Some cp)
        by (replace (S k - 1)%nat with k by lia; exact Ep).
      rewrite (Hp cp ltac:(lia) Ep').
      specialize (Hfp cp ltac:(lia) Ep'). rewrite HF by lia. lia.
    + destruct (ch !! S i) as [cn|] eqn:En.
      * specialize (Hfn cn eq_refl). rewrite (Hn cn eq_refl), HF by lia. lia.
      * exact (Hlast eq_refl).
  - intros H1. split; [exact (Hsingle H1)|].
    apply Hlast. apply lookup_ge_None_2. lia.
Qed.

Lemma get_peak_windows_bounds_witness :
  strictly_increasing test_peaks /\ 0 < 15 < 20 /\ 20 <= 100 /\
  exists m, get_peak_windows 100 15 20 test_peaks = Some m /\
            windows_ok 100 15 20 test_peaks m.
Proof.
  assert (Hs : strictly_increasing test_peaks).
  { apply StronglySorted_strictly_increasing.
    apply (bool_decide_unpack (StronglySorted Z.lt test_peaks)). vm_compute. exact I. }
  split; [exact Hs|]. split; [lia|]. split; [lia|].
  apply (get_peak_windows_bounds 100 15 20 test_peaks); [exact Hs | lia | lia].
Defined.

(** On the peaks of the repository's test, with the
    default parameters (100, 15, 20), the windows of the neighbouring peaks
    1007 and 1018 are (942, 1027) and (998, 1118), which overlap. *)
Lemma get_peak_windows_overlap_counterexample :
  exists m, get_peak_windows 100 15 20 test_peaks = Some m /\
    m !! 1007 = Some (942, 1027) /\ m !! 1018 = Some (998, 1118) /\ 998 < 1027.
Proof.
  eexists. split; [vm_compute; reflexivity|].
  split; [vm_compute; reflexivity|]. split; [vm_compute; reflexivity|]. lia.
Qed.

(** C2 (code bug): a lone peak [c] does not get the window
    [(c - maxWindow, c + maxWindow)] that the second [if] block gives it
    and the docstring of [maxWindow] describes: the last block, which has
    no [i != 0] guard, runs for it too, reads [ch[i-1] = ch[-1] = c] and
    overwrites the lower end with [c - minWindow]. *)
Theorem get_peak_windows_lone_peak (maxW pw minW c : Z) :
  0 < pw < minW -> minW < maxW ->
  get_peak_windows maxW pw minW [c] = Some {[c := (c - minW, c + maxW)]} /\
  c - minW <> c - maxW.
Proof.
  intros [Hpw Hmin] Hmax. split; [|lia].
  unfold get_peak_windows. change (seqZ 0 (Z.of_nat (length [c]))) with [0].
  cbn [foldl]. unfold window_at, window_block1, window_block2,
    window_block3, window_block4, py_get. simpl.
  rewrite bool_decide_true by lia.
  rewrite Z.max_r by lia. reflexivity.
Qed.

Lemma get_peak_windows_lone_peak_witness :
  (0 < 15 < 20 /\ 20 < 100) /\
  get_peak_windows 100 15 20 [500] = Some {[500 := (500 - 20, 500 + 100)]} /\
  500 - 20 <> 500 - 100.
Proof.
  split; [lia|]. apply (get_peak_windows_lone_peak 100 15 20 500); lia.
Defined.

End PeakWindowFacts.

(** ** [foil_count_time] *)
Module CountTimeFacts.
Import Frame Py BasicNuclearCalcs Counting PyFacts DecayFacts.

Lemma integrand_exp h i e u t :
  integrand h i e u t = integrand h i e u 0 * exp (- (ln 2 / h) * t).
Proof.
  unfold integrand. destruct (String.eqb u "atoms"); rewrite Rmult_0_r, exp_0; ring.
Qed.

(** The closed form used for [quad] is the integral of [integrand] from
    [0]: it vanishes at [0] and its derivative is the integrand. *)
Lemma quad_integrand_is_integral h i e u (t : R) :
  0 < h ->
  quad_integrand h i e u 0 = 0 /\
  derivable_pt_lim (quad_integrand h i e u) t (integrand h i e u t).
Proof.
  intros Hh.
  assert (Hl : 0 < ln 2 / h) by (apply Rdiv_lt_0_compat; [exact ln2_pos | exact Hh]).
  set (lam := ln 2 / h) in *. set (C := integrand h i e u 0).
  split.
  { unfold quad_integrand. fold lam. fold C. rewrite Rmult_0_r, exp_0.
    unfold Rdiv. ring. }
  set (g := mult_real_fct (- C / lam) (comp exp (mult_real_fct (- lam) id))).
  assert (Hg : derivable_pt_lim g t ((- C / lam) * (exp (- lam * t) * (- lam * 1)))).
  { apply derivable_pt_lim_scal.
    apply (derivable_pt_lim_comp (mult_real_fct (- lam) id) exp).
    - apply derivable_pt_lim_scal. apply derivable_pt_lim_id.
    - unfold mult_real_fct, id. apply derivable_pt_lim_exp. }
  assert (Hc : derivable_pt_lim (fct_cte (C / lam) + g)%F t
                 (0 + (- C / lam) * (exp (- lam * t) * (- lam * 1)))).
  { apply derivable_pt_lim_plus; [apply derivable_pt_lim_const | exact Hg]. }
  replace (integrand h i e u t) with (0 + (- C / lam) * (exp (- lam * t) * (- lam * 1))).
  - apply (derivable_pt_lim_ext (fct_cte (C / lam) + g)%F); [|exact Hc].
    intros z. unfold plus_fct, fct_cte, g, mult_real_fct, comp, id, quad_integrand.
    fold lam. fold C. field. lra.
  - rewrite integrand_exp. fold lam. fold C. field. lra.
Qed.

(** Computations that never raise [AssertionError]. *)
Definition no_assert {A} (m : M A) : Prop :=
  forall w, fst (m w) <> Exc AssertionError.

Lemma no_assert_ret {A} (a : A) : no_assert (ret a).
Proof. intros w. discriminate. Qed.

Lemma no_assert_raise {A} e : e <> AssertionError -> no_assert (A := A) (raise e).
Proof. intros He w. simpl. congruence. Qed.

Lemma no_assert_out_of_fuel {A} : no_assert (A := A) out_of_fuel.
Proof. intros w. discriminate. Qed.

Lemma no_assert_pdiv x y : no_assert (pdiv x y).
Proof.
  unfold pdiv. destruct (Reqb y 0); [apply no_assert_raise; discriminate | apply no_assert_ret].
Qed.

Lemma no_assert_psqrt x : no_assert (psqrt x).
Proof.
  unfold psqrt. destruct (Rltb x 0); [apply no_assert_raise; discriminate | apply no_assert_ret].
Qed.

Lemma no_assert_bind {A B} (m : M A) (k : A -> M B) :
  no_assert m -> (forall a, no_assert (k a)) -> no_assert (bind m k).
Proof.
  intros Hm Hk w. unfold bind. specialize (Hm w).
  destruct (m w) as [[a|e|] w']; simpl in *; [apply Hk | | discriminate].
  intros He. apply Hm. injection He as ->. reflexivity.
Qed.

Lemma no_assert_try {A} (m : M A) E h :
  no_assert m -> no_assert h -> no_assert (try_except m E h).
Proof.
  intros Hm Hh w. unfold try_except. specialize (Hm w).
  destruct (m w) as [[a|e|] w']; simpl in *; try discriminate.
  destruct (decide (e = E)); [apply Hh | exact Hm].
Qed.

Create HintDb no_assert_db.
#[local] Hint Resolve no_assert_ret no_assert_out_of_fuel no_assert_pdiv
  no_assert_psqrt no_assert_bind no_assert_try : no_assert_db.

Lemma no_assert_knoll sigma bg s : no_assert (knoll_update sigma bg s).
Proof. unfold knoll_update. repeat (apply no_assert_bind; intros; auto with no_assert_db). Qed.

Lemma no_assert_count_loop sigma h i e bg u p fuel tf diff s :
  no_assert (count_loop sigma h i e bg u p fuel tf diff s).
Proof.
  revert tf diff s. induction fuel as [|fuel IH]; intros tf diff s; simpl.
  - destruct (Rltb p diff); auto with no_assert_db.
  - destruct (Rltb p diff); [|auto with no_assert_db].
    apply no_assert_bind; [auto with no_assert_db | intros s'].
    apply no_assert_bind; [apply no_assert_knoll | intros tf'; apply IH].
Qed.

Lemma no_assert_body sigma h i e bg u p fuel :
  no_assert (count_time_body sigma h i e bg u p fuel).
Proof.
  unfold count_time_body. apply no_assert_bind; [apply no_assert_count_loop|].
  intros [tf [s|]]; [|apply no_assert_raise; discriminate].
  repeat (apply no_assert_bind; intros; auto with no_assert_db).
Qed.

(** The assertions of [foil_count_time]. *)
Definition valid_inputs (sigma h i e bg : R) : Prop :=
  sigma <= 1 /\ 0 < h /\ 0 <= i /\ e <= 1 /\ 0 <= bg.

Lemma validate_ok sigma h i e bg w :
  valid_inputs sigma h i e bg -> fct_validate sigma h i e bg w = (Ok tt, w).
Proof.
  intros (H1 & H2 & H3 & H4 & H5). unfold fct_validate.
  rewrite Rleb_true, Rltb_true, (Rleb_true 0 i), (Rleb_true e), (Rleb_true 0 bg)
    by assumption.
  reflexivity.
Qed.

Lemma validate_fail sigma h i e bg w :
  ~ valid_inputs sigma h i e bg -> fct_validate sigma h i e bg w = (Exc AssertionError, w).
Proof.
  intros Hv. unfold fct_validate, valid_inputs in *.
  destruct (Rle_dec sigma 1) as [H1|H1];
    [rewrite Rleb_true by exact H1 | rewrite Rleb_false by lra; reflexivity].
  destruct (Rlt_dec 0 h) as [H2|H2];
    [rewrite Rltb_true by exact H2 | rewrite Rltb_false by lra; reflexivity].
  destruct (Rle_dec 0 i) as [H3|H3];
    [rewrite (Rleb_true 0 i) by exact H3 | rewrite (Rleb_false 0 i) by lra; reflexivity].
  destruct (Rle_dec e 1) as [H4|H4];
    [rewrite (Rleb_true e) by exact H4 | rewrite (Rleb_false e) by lra; reflexivity].
  destruct (Rle_dec 0 bg) as [H5|H5];
    [exfalso; tauto | rewrite (Rleb_false 0 bg) by lra; reflexivity].
Qed.

Lemma activity_ok h n w :
  0 < h -> 0 <= n ->
  activity h n 0 w = (Ok (ln 2 / h * n * exp (- (ln 2 / h) * 0)), w).
Proof.
  intros Hh Hn. unfold activity.
  rewrite Rltb_true, Rleb_true, (Rleb_true 0 0) by lra.
  do 3 rewrite (bind_ok _ _ w tt w) by reflexivity.
  erewrite bind_ok by (apply get_decay_const_ok; exact Hh). reflexivity.
Qed.

(** The dead-time check only prints. *)
Lemma deadtime_check_ok h n u w :
  0 < h -> 0 <= n -> exists w', fct_deadtime_check h n u w = (Ok tt, w').
Proof.
  intros Hh Hn. unfold fct_deadtime_check.
  assert (H1 : exists hot w1,
    (if String.eqb u "atoms"
     then a <- activity h n 0 ;; ret (Rltb 12000 a) else ret false) w = (Ok hot, w1)).
  { destruct (String.eqb u "atoms").
    - erewrite bind_ok by (apply activity_ok; assumption). eexists _, _. reflexivity.
    - eexists _, _. reflexivity. }
  destruct H1 as (hot & w1 & H1). erewrite bind_ok by exact H1.
  assert (H2 : exists hot' w2,
    (if hot then ret true
     else if negb (String.eqb u "atoms")
     then d <- decay h n 0 u ;; ret (Rltb 12000 d) else ret false) w1 = (Ok hot', w2)).
  { destruct hot; [eexists _, _; reflexivity|].
    destruct (negb (String.eqb u "atoms")); [|eexists _, _; reflexivity].
    erewrite bind_ok by (apply decay_ok; lra). eexists _, _. reflexivity. }
  destruct H2 as (hot' & w2 & H2). erewrite bind_ok by exact H2.
  destruct hot'; eexists; reflexivity.
Qed.

(** Past the assertions, [foil_count_time] is the [try] block. *)
Lemma foil_count_time_valid sigma h i e bg u p fuel w :
  valid_inputs sigma h i e bg ->
  exists w', foil_count_time sigma h i e bg u p fuel w =
    try_except (count_time_body sigma h i e bg u p fuel) ZeroDivisionError
      (ret (1e99, 1e99)) w'.
Proof.
  intros Hv. pose proof Hv as (_ & Hh & Hi & _).
  destruct (deadtime_check_ok h i u w Hh Hi) as [w' Hd].
  exists w'. unfold foil_count_time.
  rewrite (bind_ok _ _ w tt w) by (apply validate_ok; exact Hv).
  rewrite (bind_ok _ _ w tt w') by exact Hd. reflexivity.
Qed.

(** The Knoll update when no division by zero or negative root occurs. *)
Lemma knoll_value sigma bg s w :
  0 < s -> 0 < bg -> sigma <> 0 ->
  knoll_update sigma bg s w =
    (Ok (((sqrt (s + bg) + sqrt bg) ^ 2 / (sigma ^ 2 * s ^ 2))
         / (1 + 1 / sqrt ((s + bg) / bg))), w).
Proof.
  intros Hs Hbg Hsig. unfold knoll_update.
  assert (Hq : 0 < sqrt ((s + bg) / bg))
    by (apply sqrt_lt_R0; apply Rdiv_lt_0_compat; lra).
  assert (Hd : 0 < 1 / sqrt ((s + bg) / bg)) by (apply Rdiv_lt_0_compat; lra).
  erewrite bind_ok by (apply psqrt_ok; lra).
  erewrite bind_ok by (apply psqrt_ok; lra).
  erewrite bind_ok by (apply pdiv_ok; apply Rmult_integral_contrapositive_currified;
                        apply pow_nonzero; lra).
  erewrite bind_ok by (apply pdiv_ok; lra).
  erewrite bind_ok by (apply psqrt_ok; apply Rlt_le, Rdiv_lt_0_compat; lra).
  erewrite bind_ok by (apply pdiv_ok; lra).
  apply pdiv_ok. lra.
Qed.

(** With [background = 0] the Knoll update divides by zero. *)
Lemma knoll_zero_background sigma s w :
  0 <= s -> knoll_update sigma 0 s w = (Exc ZeroDivisionError, w).
Proof.
  intros Hs. unfold knoll_update.
  erewrite bind_ok by (apply psqrt_ok; lra).
  erewrite bind_ok by (apply psqrt_ok; lra).
  destruct (Req_dec_T (sigma ^ 2 * s ^ 2) 0) as [Hz|Hz].
  - rewrite Hz. apply bind_exc. apply pdiv_zero.
  - erewrite bind_ok by (apply pdiv_ok; exact Hz).
    apply bind_exc. apply pdiv_zero.
Qed.

Lemma sqrt_4 : sqrt 4 = 2.
Proof. replace 4 with (2 * 2) by lra. apply sqrt_square. lra. Qed.

Lemma exp_neg_ln2 : exp (- (ln 2 / 1) * 1) = / 2.
Proof.
  replace (- (ln 2 / 1) * 1) with (- ln 2) by field.
  rewrite exp_Ropp, exp_ln by lra. reflexivity.
Qed.

(** [quad(integrand, 0, 1)] for [halfLife = 1] and [units = 'atoms']:
    half of the initial atoms decay in the first second. *)
Lemma quad_atoms_1 i e : quad_integrand 1 i e "atoms" 1 = i * e / 2.
Proof.
  pose proof ln2_pos.
  unfold quad_integrand, integrand. cbv zeta.
  replace (String.eqb "atoms" "atoms") with true by reflexivity.
  rewrite exp_neg_ln2, Rmult_0_r, exp_0. field. lra.
Qed.

(** The first Knoll update from [s = 4] with [background = 4/3] and
    [sigma^2 = 1] gives [tf = 1/2]. *)
Lemma knoll_example sigma w :
  sigma ^ 2 = 1 -> knoll_update sigma (4 / 3) 4 w = (Ok (1 / 2), w).
Proof.
  intros Hs. rewrite knoll_value by (try lra; intros ->; simpl in Hs; lra).
  do 2 f_equal.
  replace (4 + 4 / 3) with (4 * (4 / 3)) by field.
  rewrite sqrt_mult, sqrt_4 by lra.
  replace (4 * (4 / 3) / (4 / 3)) with 4 by field. rewrite sqrt_4.
  assert (Hr : sqrt (4 / 3) * sqrt (4 / 3) = 4 / 3) by (apply sqrt_sqrt; lra).
  replace ((2 * sqrt (4 / 3) + sqrt (4 / 3)) ^ 2)
    with (9 * (sqrt (4 / 3) * sqrt (4 / 3))) by ring.
  rewrite Hr, Hs. field.
Qed.

Lemma knoll_zero_sigma bg s w :
  0 <= bg -> 0 <= s + bg -> knoll_update 0 bg s w = (Exc ZeroDivisionError, w).
Proof.
  intros Hbg Hs. unfold knoll_update.
  erewrite bind_ok by (apply psqrt_ok; lra).
  erewrite bind_ok by (apply psqrt_ok; lra).
  replace (0 ^ 2 * s ^ 2) with 0 by ring.
  apply bind_exc. apply pdiv_zero.
Qed.

Lemma to_base_nonneg u n : 0 <= n -> 0 <= to_base u n.
Proof.
  intros Hn. unfold to_base.
  destruct (String.eqb u "uCi"); [lra|]. destruct (String.eqb u "Ci"); lra.
Qed.

Lemma quad_integrand_1_nonneg h i e u :
  0 < h -> 0 <= i -> 0 <= e -> 0 <= quad_integrand h i e u 1.
Proof.
  intros Hh Hi He.
  assert (Hl : 0 < ln 2 / h) by (apply Rdiv_lt_0_compat; [exact ln2_pos | exact Hh]).
  assert (Hx : exp (- (ln 2 / h) * 1) < 1)
    by (rewrite <- exp_0 at 2; apply exp_increasing; lra).
  assert (H0 : 0 <= integrand h i e u 0).
  { unfold integrand. cbv zeta. rewrite Rmult_0_r, exp_0.
    pose proof (to_base_nonneg u i Hi).
    destruct (String.eqb u "atoms"); apply Rmult_le_pos; nra. }
  unfold quad_integrand. cbv zeta.
  apply Rmult_le_pos; [apply Rmult_le_pos; lra | apply Rlt_le, Rinv_0_lt_compat; exact Hl].
Qed.

(** The first pass of the [while] loop, when the Knoll update raises. *)
Lemma count_loop_first_exc sigma h i e bg u p f w ex :
  p < 1000 ->
  knoll_update sigma bg (quad_integrand h i e u 1 / 1) w = (Exc ex, w) ->
  count_loop sigma h i e bg u p (S f) 1 1000 None w = (Exc ex, w).
Proof.
  intros Hp Hk. cbn [count_loop]. rewrite Rltb_true by exact Hp.
  erewrite bind_ok by (apply pdiv_ok; lra). cbv beta.
  apply bind_exc. exact Hk.
Qed.

Lemma body_exc sigma h i e bg u p fuel w ex :
  count_loop sigma h i e bg u p fuel 1 1000 None w = (Exc ex, w) ->
  count_time_body sigma h i e bg u p fuel w = (Exc ex, w).
Proof. intros H. unfold count_time_body. apply bind_exc. exact H. Qed.

(** On [sigma^2 = 1], [halfLife = 1], [8] atoms, [efficiency = 1],
    [background = 4/3], [precision = 1/4]: the loop makes one update,
    from [tf = 1] to [tf = 1/2] with [s = 4], then stops. *)
Lemma count_loop_example sigma f w :
  sigma ^ 2 = 1 ->
  count_loop sigma 1 8 1 (4 / 3) "atoms" (1 / 4) (S f) 1 1000 None w
  = (Ok (1 / 2, Some 4), w).
Proof.
  intros Hs. cbn [count_loop]. rewrite Rltb_true by lra.
  rewrite quad_atoms_1.
  erewrite bind_ok by (apply pdiv_ok; lra). cbv beta.
  replace (8 * 1 / 2 / 1) with 4 by field.
  erewrite bind_ok by (apply knoll_example; exact Hs). cbv beta.
  destruct f; cbn [count_loop]; rewrite Rltb_false by lra; reflexivity.
Qed.

Lemma body_example sigma f w :
  sigma ^ 2 = 1 ->
  count_time_body sigma 1 8 1 (4 / 3) "atoms" (1 / 4) (S f) w = (Ok (1 / 2, 1 / 4), w).
Proof.
  intros Hs. unfold count_time_body.
  erewrite bind_ok by (apply count_loop_example; exact Hs). cbv beta iota.
  erewrite bind_ok by (apply pdiv_ok; lra). cbv beta.
  replace ((4 + 4 / 3) / (4 / 3)) with 4 by field.
  erewrite bind_ok by (apply psqrt_ok; lra). cbv beta.
  rewrite sqrt_4.
  erewrite bind_ok by (apply pdiv_ok; lra).
  unfold ret. do 3 f_equal. field.
Qed.

Lemma foil_count_time_example sigma f w :
  sigma <= 1 -> sigma ^ 2 = 1 ->
  fst (foil_count_time sigma 1 8 1 (4 / 3) "atoms" (1 / 4) (S f) w) = Ok (1 / 2, 1 / 4).
Proof.
  intros Hle Hs.
  destruct (foil_count_time_valid sigma 1 8 1 (4 / 3) "atoms" (1 / 4) (S f) w)
    as [w' ->]; [unfold valid_inputs; lra|].
  unfold try_except. rewrite body_example by exact Hs. reflexivity.
Qed.

(** C3 (amended): [foil_count_time] raises [AssertionError], and does
    so before the dead-time check and the loop (the world is untouched),
    exactly when [sigma <= 1], [halfLife > 0], [init >= 0],
    [efficiency <= 1] and [background >= 0] do not all hold; there is no
    lower bound on [sigma] or on [efficiency]. *)
Theorem foil_count_time_validation sigma h i e bg u p fuel w :
  (fst (foil_count_time sigma h i e bg u p fuel w) = Exc AssertionError <->
   ~ (sigma <= 1 /\ 0 < h /\ 0 <= i /\ e <= 1 /\ 0 <= bg)) /\
  (~ (sigma <= 1 /\ 0 < h /\ 0 <= i /\ e <= 1 /\ 0 <= bg) ->
   foil_count_time sigma h i e bg u p fuel w = (Exc AssertionError, w)).
Proof.
  assert (Hinv : ~ (sigma <= 1 /\ 0 < h /\ 0 <= i /\ e <= 1 /\ 0 <= bg) ->
                 foil_count_time sigma h i e bg u p fuel w = (Exc AssertionError, w)).
  { intros Hv. unfold foil_count_time. apply bind_exc. apply validate_fail. exact Hv. }
  split; [split|exact Hinv].
  - intros Hexc Hv.
    destruct (foil_count_time_valid sigma h i e bg u p fuel w Hv) as [w' Hf].
    rewrite Hf in Hexc.
    exact (no_assert_try _ _ _ (no_assert_body sigma h i e bg u p fuel)
             (no_assert_ret _) w' Hexc).
  - intros Hv. rewrite (Hinv Hv). reflexivity.
Qed.

Lemma foil_count_time_validation_witness :
  ~ (2 <= 1 /\ 0 < 1 /\ 0 <= 1 /\ 1 <= 1 /\ 0 <= 0) /\
  foil_count_time 2 1 1 1 0 "atoms" 30 0 w0 = (Exc AssertionError, w0).
Proof.
  assert (Hv : ~ (2 <= 1 /\ 0 < 1 /\ 0 <= 1 /\ 1 <= 1 /\ 0 <= 0)) by lra.
  split; [exact Hv|].
  exact (proj2 (foil_count_time_validation 2 1 1 1 0 "atoms" 30 0 w0) Hv).
Defined.

(** C3 counterexample: [sigma = 0] and [sigma = -1] pass the assertions;
    with [halfLife = 1], [8] atoms, [efficiency = 1], [background = 4/3]
    and [precision = 1/4], [sigma = 0] returns the sentinel [(1E99, 1E99)]
    and [sigma = -1] returns the count times [(1/2, 1/4)]. *)
Lemma foil_count_time_sigma_counterexample :
  fst (foil_count_time 0 1 8 1 (4 / 3) "atoms" (1 / 4) 1 w0) = Ok (1e99, 1e99) /\
  fst (foil_count_time (-1) 1 8 1 (4 / 3) "atoms" (1 / 4) 1 w0) = Ok (1 / 2, 1 / 4).
Proof.
  split.
  - destruct (foil_count_time_valid 0 1 8 1 (4 / 3) "atoms" (1 / 4) 1 w0)
      as [w' ->]; [unfold valid_inputs; lra|].
    unfold try_except.
    rewrite body_exc with (ex := ZeroDivisionError).
    + rewrite decide_True by reflexivity. reflexivity.
    + apply count_loop_first_exc; [lra|].
      rewrite quad_atoms_1. apply knoll_zero_sigma; lra.
  - apply foil_count_time_example; lra.
Qed.

(** C5 (code bug): the loop stops as soon as [tf_new - tf_old <= precision],
    a signed test. With [sigma = 1], [halfLife = 1], [8] atoms,
    [efficiency = 1], [background = 4/3] and [precision = 1/4], the first
    update takes [tf] from [1] to [1/2]; [|1/2 - 1| = 1/2 >= 1/4], yet the
    loop stops there and [foil_count_time] returns [(1/2, 1/4)]. *)
Theorem foil_count_time_stops_on_decrease (f : nat) :
  fst (count_loop 1 1 8 1 (4 / 3) "atoms" (1 / 4) (S f) 1 1000 None w0)
    = Ok (1 / 2, Some 4) /\
  fst (knoll_update 1 (4 / 3) (quad_integrand 1 8 1 "atoms" 1 / 1) w0) = Ok (1 / 2) /\
  Rabs (1 / 2 - 1) >= 1 / 4 /\
  fst (foil_count_time 1 1 8 1 (4 / 3) "atoms" (1 / 4) (S f) w0) = Ok (1 / 2, 1 / 4).
Proof.
  split; [rewrite count_loop_example by lra; reflexivity|].
  split.
  { rewrite quad_atoms_1. replace (8 * 1 / 2 / 1) with 4 by field.
    rewrite knoll_example by lra. reflexivity. }
  split.
  - rewrite Rabs_left by lra. lra.
  - apply foil_count_time_example; lra.
Qed.

(** The average count rate [s = quad(integrand, 0, 1)[0]/1] of the
    first pass has the sign of [init * efficiency]. *)
Lemma quad_integrand_1_sign h i e u :
  0 < h -> 0 <= i ->
  ((0 <= e \/ i = 0) -> 0 <= quad_integrand h i e u 1 / 1) /\
  (e < 0 -> 0 < i -> quad_integrand h i e u 1 / 1 < 0).
Proof.
  intros Hh Hi.
  assert (Hl : 0 < ln 2 / h) by (apply Rdiv_lt_0_compat; [exact ln2_pos | exact Hh]).
  assert (Hx : exp (- (ln 2 / h) * 1) < 1)
    by (rewrite <- exp_0 at 2; apply exp_increasing; lra).
  assert (Hb : 0 < i -> 0 < to_base u i).
  { intros Hp. unfold to_base.
    destruct (String.eqb u "uCi"); [lra|]. destruct (String.eqb u "Ci"); lra. }
  assert (Hb0 : to_base u 0 = 0).
  { unfold to_base. destruct (String.eqb u "uCi"); [lra|]. destruct (String.eqb u "Ci"); lra. }
  assert (Hq : quad_integrand h i e u 1 / 1
               = integrand h i e u 0 * ((1 - exp (- (ln 2 / h) * 1)) / (ln 2 / h))).
  { pose proof ln2_pos. unfold quad_integrand. cbv zeta. field. split; lra. }
  assert (Hf : 0 < (1 - exp (- (ln 2 / h) * 1)) / (ln 2 / h))
    by (apply Rdiv_lt_0_compat; lra).
  rewrite Hq. unfold integrand. cbv zeta. rewrite Rmult_0_r, exp_0.
  split.
  - intros [He|H0].
    + apply Rmult_le_pos; [|lra]. rewrite Rmult_1_r.
      pose proof (to_base_nonneg u i Hi).
      destruct (String.eqb u "atoms");
        [apply Rmult_le_pos; [apply Rmult_le_pos|] | apply Rmult_le_pos]; lra.
    + subst i. rewrite Hb0.
      destruct (String.eqb u "atoms"); rewrite ?Rmult_0_r, ?Rmult_0_l; lra.
  - intros He Hp. specialize (Hb Hp).
    apply Rmult_neg_pos; [|exact Hf].
    destruct (String.eqb u "atoms").
    + rewrite Rmult_1_r. apply Rmult_pos_neg; [|exact He].
      apply Rmult_lt_0_compat; [exact Hl | exact Hp].
    + rewrite Rmult_1_r. apply Rmult_pos_neg; [exact Hb | exact He].
Qed.

(** C10 (amended): if the assertions pass with [background = 0] and
    [precision < 1000] (so that the loop body runs), [foil_count_time]
    returns the sentinel [(1E99, 1E99)] when [efficiency >= 0] or
    [init = 0]: the first Knoll update divides by zero.  A negative
    efficiency, which the assertions accept, with [init > 0] makes the
    average rate [s] negative, and [sqrt(s + background)] raises
    [ValueError] instead. *)
Theorem foil_count_time_zero_background sigma h i e u p fuel w :
  sigma <= 1 -> 0 < h -> 0 <= i -> e <= 1 -> p < 1000 ->
  exists w',
    ((0 <= e \/ i = 0) ->
       foil_count_time sigma h i e 0 u p (S fuel) w = (Ok (1e99, 1e99), w')) /\
    (e < 0 -> 0 < i ->
       foil_count_time sigma h i e 0 u p (S fuel) w = (Exc ValueError, w')).
Proof.
  intros Hs Hh Hi He Hp.
  destruct (quad_integrand_1_sign h i e u Hh Hi) as [Hnn Hneg].
  destruct (foil_count_time_valid sigma h i e 0 u p (S fuel) w) as [w' ->];
    [unfold valid_inputs; lra|].
  exists w'. split.
  - intros He'. unfold try_except.
    rewrite body_exc with (ex := ZeroDivisionError).
    + rewrite decide_True by reflexivity. reflexivity.
    + apply count_loop_first_exc; [exact Hp|].
      apply knoll_zero_background. exact (Hnn He').
  - intros He' Hi'. unfold try_except.
    rewrite body_exc with (ex := ValueError).
    + rewrite decide_False by discriminate. reflexivity.
    + apply count_loop_first_exc; [exact Hp|].
      unfold knoll_update. apply bind_exc. apply psqrt_neg.
      pose proof (Hneg He' Hi'). lra.
Qed.

Lemma foil_count_time_zero_background_witness :
  (1 / 10 <= 1 /\ 0 < 1 /\ 0 <= 1 /\ - 1 / 2 <= 1 /\ 30 < 1000) /\
  exists w',
    ((0 <= - 1 / 2 \/ 1 = 0) ->
       foil_count_time (1 / 10) 1 1 (- 1 / 2) 0 "atoms" 30 1 w0 = (Ok (1e99, 1e99), w')) /\
    (- 1 / 2 < 0 -> 0 < 1 ->
       foil_count_time (1 / 10) 1 1 (- 1 / 2) 0 "atoms" 30 1 w0 = (Exc ValueError, w')).
Proof.
  split; [lra|].
  apply (foil_count_time_zero_background (1 / 10) 1 1 (- 1 / 2) "atoms" 30 0 w0); lra.
Defined.

(** C10 counterexample: with [background = 0] the assertions pass, but a
    negative efficiency ([-1/2], with [halfLife = 1] and one atom) makes
    [s = -1/4], and [sqrt(s + background)] raises [ValueError], not the
    sentinel. *)
Lemma foil_count_time_zero_background_counterexample :
  fst (foil_count_time 1 1 1 (- 1 / 2) 0 "atoms" 30 1 w0) = Exc ValueError.
Proof.
  destruct (foil_count_time_valid 1 1 1 (- 1 / 2) 0 "atoms" 30 1 w0)
    as [w' ->]; [unfold valid_inputs; lra|].
  unfold try_except.
  rewrite body_exc with (ex := ValueError).
  - rewrite decide_False by discriminate. reflexivity.
  - apply count_loop_first_exc; [lra|].
    rewrite quad_atoms_1. unfold knoll_update.
    apply bind_exc. apply psqrt_neg. lra.
Qed.

End CountTimeFacts.

(** ** [optimal_count_plan] *)
Module PlanFacts.
Import Frame Py BasicNuclearCalcs Counting PyFacts DecayFacts CountTimeFacts.

Lemma decay_Bq h n t w :
  0 < h -> 0 <= n -> 0 <= t ->
  decay h n t "Bq" w = (Ok (n * exp (- (ln 2 / h) * t)), w).
Proof.
  intros Hh Hn Ht. rewrite decay_ok by assumption.
  rewrite decide_True by (right; right; left; reflexivity). reflexivity.
Qed.

(** The rows [decay] accepts with [units='Bq']. *)
Definition decayable (r : work) : Prop :=
  0 < halfLife (wch r) /\ 0 <= countActivity r /\ 0 <= countActUncert r.

Lemma decay_uncounted_ok rows dt w :
  0 <= dt -> Forall decayable rows ->
  exists rows', decay_uncounted rows dt w = (Ok rows', w).
Proof.
  intros Hdt Hall. induction Hall as [|r rows [Hh [Ha Hu]] _ IH].
  - eexists. reflexivity.
  - destruct IH as [rows' IH]. cbn [decay_uncounted].
    destruct (Reqb (countTime r) 0).
    + erewrite bind_ok.
      2:{ erewrite bind_ok by (apply decay_Bq; assumption).
          erewrite bind_ok by (apply decay_Bq; assumption). reflexivity. }
      erewrite bind_ok by exact IH. eexists. reflexivity.
    + erewrite bind_ok by reflexivity.
      erewrite bind_ok by exact IH. eexists. reflexivity.
Qed.

(** A channel whose [countActivity - 3 countActUncert] is negative fails
    the assertion [init >= 0] of [foil_count_time]: the [except
    AssertionError] branch is taken. *)
Lemma channel_count_time_neg bg toMinute fuel r absEff w :
  countActivity r - 3 * countActUncert r < 0 ->
  channel_count_time bg toMinute fuel r absEff w = (Ok None, w).
Proof.
  intros Hneg. unfold channel_count_time, try_except.
  rewrite bind_exc with (e := AssertionError) (w' := w).
  - rewrite decide_True by reflexivity. reflexivity.
  - unfold foil_count_time. apply bind_exc. apply validate_fail.
    intros (_ & _ & Hi & _). lra.
Qed.

(** The C1 input: one foil ["A"] with two channels; the first has an
    activity uncertainty as large as its activity. *)
Definition ch_low : channel := mk_channel "A" 0 1 1 1 0 (1 / 10) 0.
Definition ch_high : channel := mk_channel "A" 0 1 100 0 0 (1 / 10) 0.
Definition plan_abs_eff (c : channel) : M R := ret (1 / 2).
Definition plan_world : world := mk_world (fun _ => [ch_low; ch_high]) [].

Ltac plan_cbn :=
  cbn -[IZR Z.pow_pos Rltb Rleb Reqb foil_count_time channel_count_time decay exp ln].

(** The group loop breaks at the first channel: [ct] stays [0]. *)
Lemma count_group_example fuel w :
  count_group plan_abs_eff 0 false fuel [0%nat; 1%nat] (map init_work [ch_low; ch_high]) 0 w
  = (Ok (at_upd 0 (set_countTime 1e99)
           (at_upd 0 (set_countOrder 1) (map init_work [ch_low; ch_high])), 0), w).
Proof.
  plan_cbn.
  erewrite bind_ok by (apply channel_count_time_neg; plan_cbn; lra).
  reflexivity.
Qed.

Lemma plan_example fuel :
  exists df, fst (optimal_count_plan remove_dups plan_abs_eff 0 0 false fuel 1%positive
                    "Bq" plan_world) = Ok (df, ["A"], 0).
Proof.
  unfold optimal_count_plan.
  rewrite (bind_ok _ _ plan_world tt plan_world) by reflexivity.
  rewrite (bind_ok _ _ plan_world [ch_low; ch_high] plan_world) by reflexivity.
  cbv beta zeta.
  replace (permutations (remove_dups (map foil [ch_low; ch_high]))) with [["A"]]
    by (vm_compute; reflexivity).
  destruct (decay_uncounted_ok
              (fold_left (fun df rx => at_upd rx (set_countTime 0) df) [0%nat; 1%nat]
                 (at_upd 0 (set_countTime 1e99)
                    (at_upd 0 (set_countOrder 1) (map init_work [ch_low; ch_high]))))
              (0 + 0) plan_world) as [rows Hd].
  { lra. }
  { plan_cbn. repeat constructor; unfold decayable; plan_cbn; lra. }
  exists (sort_by_countOrder rows).
  erewrite bind_ok.
  2:{ cbn [search].
      erewrite bind_ok by reflexivity. cbv beta zeta.
      erewrite bind_ok.
      2:{ cbn [count_order]. cbv beta zeta.
          match goal with |- context [group_index ?d ?f] =>
            change (group_index d f) with [0%nat; 1%nat] end.
          erewrite bind_ok by exact (count_group_example fuel plan_world).
          cbv beta iota.
          erewrite bind_ok by exact Hd. reflexivity. }
      cbv beta. cbn [search]. reflexivity. }
  cbv beta. cbn. f_equal. f_equal. ring.
Qed.

(** Computations that leave the object store as they found it. *)
Definition keeps_store {A} (m : M A) : Prop :=
  forall w, store (snd (m w)) = store w.

Lemma keeps_ret {A} (a : A) : keeps_store (ret a).
Proof. intros w. reflexivity. Qed.

Lemma keeps_raise {A} e : keeps_store (A := A) (raise e).
Proof. intros w. reflexivity. Qed.

Lemma keeps_out_of_fuel {A} : keeps_store (A := A) out_of_fuel.
Proof. intros w. reflexivity. Qed.

Lemma keeps_print msg : keeps_store (print msg).
Proof. intros w. reflexivity. Qed.

Lemma keeps_load l : keeps_store (load l).
Proof. intros w. reflexivity. Qed.

Lemma keeps_py_assert b : keeps_store (py_assert b).
Proof. intros w. destruct b; reflexivity. Qed.

Lemma keeps_pdiv x y : keeps_store (pdiv x y).
Proof. intros w. unfold pdiv. destruct (Reqb y 0); reflexivity. Qed.

Lemma keeps_psqrt x : keeps_store (psqrt x).
Proof. intros w. unfold psqrt. destruct (Rltb x 0); reflexivity. Qed.

Lemma keeps_bind {A B} (m : M A) (k : A -> M B) :
  keeps_store m -> (forall a, keeps_store (k a)) -> keeps_store (bind m k).
Proof.
  intros Hm Hk w. unfold bind. specialize (Hm w).
  destruct (m w) as [[a|e|] w']; simpl in *; [rewrite Hk | |]; exact Hm.
Qed.

Lemma keeps_try {A} (m : M A) E h :
  keeps_store m -> keeps_store h -> keeps_store (try_except m E h).
Proof.
  intros Hm Hh w. unfold try_except. specialize (Hm w).
  destruct (m w) as [[a|e|] w']; simpl in *; try exact Hm.
  destruct (decide (e = E)); [rewrite Hh|]; exact Hm.
Qed.

Create HintDb keeps_db.
#[local] Hint Resolve keeps_ret keeps_raise keeps_out_of_fuel keeps_print keeps_load
  keeps_py_assert keeps_pdiv keeps_psqrt keeps_bind keeps_try : keeps_db.

(** Splits a computation into its binds, conditionals and matches. *)
Ltac keeps :=
  repeat match goal with
  | |- keeps_store (bind _ _) => apply keeps_bind; [|intros ?]
  | |- keeps_store (try_except _ _ _) => apply keeps_try
  | |- keeps_store (if ?b then _ else _) => destruct b
  | |- keeps_store (match ?x with _ => _ end) => destruct x
  | |- keeps_store (let '(_, _) := ?x in _) => destruct x
  end; auto with keeps_db.

Lemma keeps_decay h n t u : keeps_store (decay h n t u).
Proof. unfold decay, get_decay_const. keeps. Qed.

Lemma keeps_activity h n t : keeps_store (activity h n t).
Proof. unfold activity, get_decay_const. keeps. Qed.

Lemma keeps_count_loop sigma h i e bg u p fuel tf diff s :
  keeps_store (count_loop sigma h i e bg u p fuel tf diff s).
Proof.
  revert tf diff s. induction fuel as [|fuel IH]; intros tf diff s; simpl.
  - keeps.
  - unfold knoll_update. keeps.
Qed.

Lemma keeps_foil_count_time sigma h i e bg u p fuel :
  keeps_store (foil_count_time sigma h i e bg u p fuel).
Proof.
  unfold foil_count_time, fct_validate, fct_deadtime_check, count_time_body.
  keeps; auto using keeps_decay, keeps_activity, keeps_count_loop.
Qed.

Lemma keeps_channel_count_time bg toMinute fuel r absEff :
  keeps_store (channel_count_time bg toMinute fuel r absEff).
Proof. unfold channel_count_time. keeps. apply keeps_foil_count_time. Qed.

Lemma keeps_py_max_R l : keeps_store (py_max_R l).
Proof. unfold py_max_R. keeps. Qed.

Lemma keeps_py_max_Z l : keeps_store (py_max_Z l).
Proof. unfold py_max_Z. keeps. Qed.

Lemma keeps_decay_uncounted rows dt : keeps_store (decay_uncounted rows dt).
Proof.
  induction rows as [|r rows IH]; simpl; keeps; apply keeps_decay.
Qed.

Section KeepsPlan.
Variable abs_eff : channel -> M R.
Hypothesis abs_eff_keeps : forall c, keeps_store (abs_eff c).
Variables (handleTime background : R) (toMinute : bool) (fuel : nat).

Lemma keeps_count_group rxs df ct :
  keeps_store (count_group abs_eff background toMinute fuel rxs df ct).
Proof.
  revert df ct. induction rxs as [|rx rxs IH]; intros df ct; simpl; keeps;
    auto using keeps_py_max_Z, keeps_py_max_R, keeps_channel_count_time.
Qed.

Lemma keeps_count_order order df tmpTotal :
  keeps_store (count_order abs_eff handleTime background toMinute fuel order df tmpTotal).
Proof.
  revert df tmpTotal. induction order as [|f order IH]; intros df tmpTotal; simpl; keeps;
    auto using keeps_count_group, keeps_decay_uncounted.
Qed.

Lemma keeps_search l orders b :
  keeps_store (search abs_eff handleTime background toMinute fuel l orders b).
Proof.
  revert b. induction orders as [|order orders IH]; intros b; simpl; keeps;
    auto using keeps_count_order.
Qed.

(** After [optimal_count_plan], whatever its outcome, the store is the
    one left by the unit conversion at its top. *)
Lemma optimal_count_plan_store set_order l units w :
  store (snd (optimal_count_plan set_order abs_eff handleTime background toMinute fuel
                l units w))
  = store (snd (convert_units l units w)).
Proof.
  unfold optimal_count_plan, bind at 1.
  destruct (convert_units l units w) as [[[]|e|] w'] eqn:Hc; simpl; [|reflexivity|reflexivity].
  assert (H : keeps_store
    (fp <- load l ;;
     b <- search abs_eff handleTime background toMinute fuel l
            (permutations (set_order (map foil fp))) None ;;
     match b with
     | None => raise UnboundLocalError
     | Some (bestOrder, totalTime, bestDF) =>
       ret (sort_by_countOrder bestDF, bestOrder, totalTime)
     end)).
  { keeps. apply keeps_search. }
  apply H.
Qed.

End KeepsPlan.

Lemma convert_units_store l k u w :
  (u = "uCi" /\ k = 1e-6 * 3.7e10 \/ u = "Ci" /\ k = 3.7e10) ->
  store (snd (convert_units l u w)) l
  = map (scale_activityUncert k) (map (scale_initActivity k) (store w l)).
Proof.
  intros [[-> ->]|[-> ->]]; unfold convert_units; simpl;
    unfold store_upd; rewrite !decide_True by reflexivity; reflexivity.
Qed.

(** C1 (code bug): when [foil_count_time] raises [AssertionError] for a
    channel, the group loop sets its [countTime] to [1E99] and [break]s
    without updating [ct], so the group contributes [0] and its later
    channels are never timed. One foil ["A"] (a single permutation) with
    the channels [ch_low] ([1] Bq, uncertainty [1]: [1 - 3 = -2 < 0]) and
    [ch_high] ([100] Bq, no uncertainty), [background = 0], absolute
    efficiency [1/2]: [ch_high] alone needs [1E99] s, but the returned
    [totalTime] is [0]. *)
Theorem optimal_count_plan_break_total (f : nat) :
  permutations (remove_dups (map foil [ch_low; ch_high])) = [["A"]] /\
  fst (foil_count_time (relStat ch_low) (halfLife ch_low)
         (initActivity ch_low - 3 * activityUncert ch_low) (1 / 2) 0 "Bq" 30 (S f)
         plan_world) = Exc AssertionError /\
  fst (foil_count_time (relStat ch_high) (halfLife ch_high)
         (initActivity ch_high - 3 * activityUncert ch_high) (1 / 2) 0 "Bq" 30 (S f)
         plan_world) = Ok (1e99, 1e99) /\
  exists df, fst (optimal_count_plan remove_dups plan_abs_eff 0 0 false (S f) 1%positive
                    "Bq" plan_world) = Ok (df, ["A"], 0).
Proof.
  split; [vm_compute; reflexivity|].
  split.
  { unfold foil_count_time. rewrite bind_exc with (e := AssertionError) (w' := plan_world);
      [reflexivity|].
    apply validate_fail. unfold ch_low. cbn [relStat halfLife initActivity activityUncert].
    intros (_ & _ & Hi & _). lra. }
  split; [|apply plan_example].
  unfold ch_high. cbn [relStat halfLife initActivity activityUncert].
  destruct (foil_count_time_valid (1 / 10) 1 (100 - 3 * 0) (1 / 2) 0 "Bq" 30 (S f) plan_world)
    as [w' ->]; [unfold valid_inputs; lra|].
  unfold try_except.
  rewrite body_exc with (ex := ZeroDivisionError).
  - rewrite decide_True by reflexivity. reflexivity.
  - apply count_loop_first_exc; [lra|]. apply knoll_zero_background.
    pose proof (quad_integrand_1_nonneg 1 (100 - 3 * 0) (1 / 2) "Bq" ltac:(lra) ltac:(lra)
                  ltac:(lra)).
    unfold Rdiv at 1. rewrite Rinv_1, Rmult_1_r. exact H.
Qed.

(** C9 (code bug): with [units='uCi'] or [units='Ci'],
    [optimal_count_plan] rescales the [initActivity] and [activityUncert]
    columns of the caller's DataFrame in place, and the caller sees the
    converted values after the call, whatever its outcome; only
    [units='Bq'] leaves the caller's table as it was. *)
Theorem optimal_count_plan_mutates_input set_order abs_eff handleTime bg toMinute fuel l w :
  (forall c, keeps_store (abs_eff c)) ->
  store (snd (optimal_count_plan set_order abs_eff handleTime bg toMinute fuel l "uCi" w)) l
    = map (scale_activityUncert (1e-6 * 3.7e10))
          (map (scale_initActivity (1e-6 * 3.7e10)) (store w l)) /\
  store (snd (optimal_count_plan set_order abs_eff handleTime bg toMinute fuel l "Ci" w)) l
    = map (scale_activityUncert 3.7e10) (map (scale_initActivity 3.7e10) (store w l)) /\
  store (snd (optimal_count_plan set_order abs_eff handleTime bg toMinute fuel l "Bq" w))
    = store w.
Proof.
  intros Hk.
  rewrite !(optimal_count_plan_store abs_eff Hk).
  split; [apply convert_units_store; left; split; reflexivity|].
  split; [apply convert_units_store; right; split; reflexivity|].
  reflexivity.
Qed.

Lemma optimal_count_plan_mutates_input_witness :
  (forall c, keeps_store (plan_abs_eff c)) /\
  map initActivity
    (store (snd (optimal_count_plan remove_dups plan_abs_eff 0 0 false 1 1%positive "uCi"
                   plan_world)) 1%positive) = [37000; 3700000] /\
  map activityUncert
    (store (snd (optimal_count_plan remove_dups plan_abs_eff 0 0 false 1 1%positive "uCi"
                   plan_world)) 1%positive) = [37000; 0].
Proof.
  assert (Hk : forall c, keeps_store (plan_abs_eff c)) by (intros c; apply keeps_ret).
  split; [exact Hk|].
  rewrite (proj1 (optimal_count_plan_mutates_input remove_dups plan_abs_eff 0 0 false 1
                    1%positive plan_world Hk)).
  cbn [store snd plan_world map initActivity activityUncert scale_initActivity
       scale_activityUncert ch_low ch_high].
  split; apply (f_equal2 cons); [lra | apply (f_equal2 cons); [lra | reflexivity]
                               | lra | apply (f_equal2 cons); [lra | reflexivity]].
Defined.

End PlanFacts.


(** ** Further properties of the embedded functions *)

(** Evaluating assertions and binds. *)
Module EvalFacts.
Import Frame Py.

(** An assertion followed by the rest of the function. *)
Lemma assert_seq {A} (b : bool) (k : M A) w :
  (py_assert b ;;; k) w = if b then k w else (Exc AssertionError, w).
Proof. destruct b; reflexivity. Qed.

Lemma Rltb_iff x y : Rltb x y = true <-> x < y.
Proof. unfold Rltb. destruct (Rlt_dec x y); split; intros; congruence || lra. Qed.

Lemma Rleb_iff x y : Rleb x y = true <-> x <= y.
Proof. unfold Rleb. destruct (Rle_dec x y); split; intros; congruence || lra. Qed.

(** Rewrites every leading assertion of the goal. *)
Ltac asserts_go :=
  repeat match goal with
  | |- context [ (py_assert ?b ;;; ?k) ?w ] => rewrite (assert_seq b k w)
  end.

Lemma div_nonneg x y : 0 <= x -> 0 < y -> 0 <= x / y.
Proof.
  intros Hx Hy. unfold Rdiv.
  apply Rmult_le_pos; [exact Hx | left; apply Rinv_0_lt_compat; exact Hy].
Qed.

Lemma bind_Ok_inv {A B} (m : M A) (k : A -> M B) w b w' :
  bind m k w = (Ok b, w') -> exists a w1, m w = (Ok a, w1) /\ k a w1 = (Ok b, w').
Proof.
  unfold bind. destruct (m w) as [[a|e|] w1]; intros H; [eauto | discriminate | discriminate].
Qed.

(** Splits a successful bind in hypothesis [H]. *)
Ltac bind_inv H :=
  let a := fresh "a" in let w := fresh "w" in let Hm := fresh "Hm" in
  apply bind_Ok_inv in H as (a & w & Hm & H).

End EvalFacts.

Module BasicCalcFacts.
Import Frame Py BasicNuclearCalcs PyFacts DecayFacts CountTimeFacts PlanFacts EvalFacts.

(** An assertion followed by the rest of the function. *)

Lemma get_halflife_ok k w :
  0 < k -> get_halflife k w = (Ok (ln 2 / k), w).
Proof.
  intros Hk. unfold get_halflife. rewrite assert_seq, Rltb_true by exact Hk.
  apply pdiv_ok. lra.
Qed.

(** [get_halflife] and [get_decay_const] are inverse to each other on
    positive arguments. *)
Theorem get_halflife_inverse (h : R) (w : world) :
  0 < h ->
  (k <- get_decay_const h ;; get_halflife k) w = (Ok h, w) /\
  (k <- get_halflife h ;; get_decay_const k) w = (Ok h, w).
Proof.
  intros Hh. pose proof ln2_pos as Hl.
  assert (Hk : 0 < ln 2 / h) by (apply Rdiv_lt_0_compat; lra).
  split.
  - erewrite bind_ok by (apply get_decay_const_ok; exact Hh).
    rewrite get_halflife_ok by exact Hk. do 2 f_equal. field. lra.
  - erewrite bind_ok by (apply get_halflife_ok; exact Hh).
    rewrite get_decay_const_ok by exact Hk. do 2 f_equal. field. lra.
Qed.

Lemma get_halflife_inverse_witness :
  0 < 100 /\
  (k <- get_decay_const 100 ;; get_halflife k) w0 = (Ok 100, w0) /\
  (k <- get_halflife 100 ;; get_decay_const k) w0 = (Ok 100, w0).
Proof. split; [lra | apply (get_halflife_inverse 100 w0); lra]. Defined.

(** [decay] raises [AssertionError], without printing, exactly when
    [halfLife <= 0], [n < 0] or [t < 0], whatever the units. *)
Theorem decay_validation h n t u w :
  (fst (decay h n t u w) = Exc AssertionError <-> ~ (0 < h /\ 0 <= n /\ 0 <= t)) /\
  (~ (0 < h /\ 0 <= n /\ 0 <= t) -> decay h n t u w = (Exc AssertionError, w)).
Proof.
  assert (Hinv : ~ (0 < h /\ 0 <= n /\ 0 <= t) -> decay h n t u w = (Exc AssertionError, w)).
  { intros Hv. unfold decay. asserts_go.
    destruct (Rltb 0 h) eqn:E1; [|reflexivity].
    destruct (Rleb 0 n) eqn:E2; [|reflexivity].
    destruct (Rleb 0 t) eqn:E3; [|reflexivity].
    apply Rltb_iff in E1. apply Rleb_iff in E2, E3. tauto. }
  split; [|exact Hinv].
  split.
  - intros He (Hh & Hn & Ht). rewrite decay_ok in He by assumption. discriminate He.
  - intros Hv. rewrite Hinv by exact Hv. reflexivity.
Qed.

(** Decaying for [t1] and then, in becquerels, for [t2] is decaying
    for [t1 + t2] (what [optimal_count_plan] does between foils). *)
Theorem decay_compose h n t1 t2 u w :
  0 < h -> 0 <= n -> 0 <= t1 -> 0 <= t2 ->
  (m <- decay h n t1 u ;; decay h m t2 "Bq") w = decay h n (t1 + t2) u w.
Proof.
  intros Hh Hn Ht1 Ht2.
  erewrite bind_ok by (apply decay_ok; assumption).
  rewrite decay_Bq.
  - rewrite decay_ok by lra. f_equal. f_equal.
    rewrite Rmult_assoc, <- exp_plus. f_equal. f_equal. ring.
  - exact Hh.
  - apply Rmult_le_pos; [apply to_base_nonneg; exact Hn | left; apply exp_pos].
  - exact Ht2.
Qed.

Lemma decay_compose_witness :
  0 < 100 /\ 0 <= 1000 /\ 0 <= 50 /\ 0 <= 50 /\
  (m <- decay 100 1000 50 "uCi" ;; decay 100 m 50 "Bq") w0 = decay 100 1000 (50 + 50) "uCi" w0.
Proof.
  split; [lra|]. split; [lra|]. split; [lra|]. split; [lra|].
  apply decay_compose; lra.
Defined.

Lemma exp_INR_ln2 (k : nat) : exp (INR k * ln 2) = 2 ^ k.
Proof.
  induction k as [|k IH].
  - simpl. rewrite Rmult_0_l. apply exp_0.
  - rewrite S_INR, Rmult_plus_distr_r, exp_plus, IH, Rmult_1_l, exp_ln by lra.
    simpl. ring.
Qed.

(** After [k] half-lives, [decay] has divided the (converted) initial
    quantity by [2^k]. *)
Theorem decay_half_lives h n u (k : nat) w :
  0 < h -> 0 <= n ->
  fst (decay h n (INR k * h) u w) = Ok (Counting.to_base u n / 2 ^ k).
Proof.
  intros Hh Hn. rewrite decay_ok.
  - cbn [fst]. f_equal.
    replace (- (ln 2 / h) * (INR k * h)) with (- (INR k * ln 2)) by (field; lra).
    rewrite exp_Ropp, exp_INR_ln2. unfold Rdiv. reflexivity.
  - exact Hh.
  - exact Hn.
  - apply Rmult_le_pos; [apply pos_INR | lra].
Qed.

Lemma decay_half_lives_witness :
  0 < 100 /\ 0 <= 1000 /\
  fst (decay 100 1000 (INR 1 * 100) "atoms" w0) = Ok (Counting.to_base "atoms" 1000 / 2 ^ 1).
Proof. split; [lra|]. split; [lra|]. apply decay_half_lives; lra. Defined.

(** [activity] raises [AssertionError] exactly when [halfLife <= 0],
    [n < 0] or [t < 0]; otherwise it is the decay constant times the
    number of atoms [decay(halfLife, n, t, 'atoms')] left at [t]. *)
Theorem activity_is_lambda_decay h n t w :
  (fst (activity h n t w) = Exc AssertionError <-> ~ (0 < h /\ 0 <= n /\ 0 <= t)) /\
  (0 < h -> 0 <= n -> 0 <= t ->
   exists v, fst (decay h n t "atoms" w) = Ok v /\
             fst (activity h n t w) = Ok (ln 2 / h * v)).
Proof.
  assert (Hok : 0 < h -> 0 <= n -> 0 <= t ->
                activity h n t w = (Ok (ln 2 / h * n * exp (- (ln 2 / h) * t)), w)).
  { intros Hh Hn Ht. unfold activity.
    rewrite Rltb_true, Rleb_true, (Rleb_true 0 t) by assumption.
    do 3 rewrite (bind_ok _ _ w tt w) by reflexivity.
    erewrite bind_ok by (apply get_decay_const_ok; exact Hh). reflexivity. }
  split.
  - split.
    + intros He (Hh & Hn & Ht). rewrite Hok in He by assumption. discriminate He.
    + intros Hv. unfold activity. asserts_go.
      destruct (Rltb 0 h) eqn:E1; [|reflexivity].
      destruct (Rleb 0 n) eqn:E2; [|reflexivity].
      destruct (Rleb 0 t) eqn:E3; [|reflexivity].
      apply Rltb_iff in E1. apply Rleb_iff in E2, E3. tauto.
  - intros Hh Hn Ht. eexists. split.
    + rewrite decay_ok by assumption. reflexivity.
    + rewrite Hok by assumption. cbn [fst]. f_equal.
      unfold Counting.to_base. simpl. ring.
Qed.

End BasicCalcFacts.


Module ProductionFacts.
Import Frame Py BasicNuclearCalcs PyFacts DecayFacts CountTimeFacts PlanFacts EvalFacts.

(** The arguments [production_decay] accepts. *)
Definition production_valid (h n t rate src vol tt : R) : Prop :=
  0 < h /\ 0 <= n /\ 0 <= t /\ 0 <= rate /\ 0 <= src /\ 0 < vol /\ 0 <= tt.

(** The saturation population [rate*vol*src/lam]. *)
Definition saturation (h rate src vol : R) : R := rate * vol * src / (ln 2 / h).

Lemma production_decay_ok h n t rate src vol tt w :
  production_valid h n t rate src vol tt ->
  production_decay h n t rate src vol tt w =
    (Ok ((saturation h rate src vol * (1 - exp (- (ln 2 / h) * t))
          + n * exp (- (ln 2 / h) * t)) * exp (- (ln 2 / h) * tt)), w).
Proof.
  intros (Hh & Hn & Ht & Hr & Hs & Hv & Htt). unfold production_decay.
  asserts_go.
  rewrite Rltb_true, !Rleb_true, (Rltb_true 0 vol) by assumption.
  erewrite bind_ok by (apply get_decay_const_ok; exact Hh).
  erewrite bind_ok.
  2:{ apply pdiv_ok. apply Rgt_not_eq, Rdiv_lt_0_compat; [apply ln2_pos | exact Hh]. }
  reflexivity.
Qed.

(** [production_decay] raises [AssertionError], before computing
    anything, exactly when one of [halfLife > 0], [n >= 0], [t >= 0],
    [rate >= 0], [src >= 0], [vol > 0], [tt >= 0] fails. *)
Theorem production_decay_validation h n t rate src vol tt w :
  (fst (production_decay h n t rate src vol tt w) = Exc AssertionError <->
   ~ production_valid h n t rate src vol tt) /\
  (~ production_valid h n t rate src vol tt ->
   production_decay h n t rate src vol tt w = (Exc AssertionError, w)).
Proof.
  assert (Hinv : ~ production_valid h n t rate src vol tt ->
                 production_decay h n t rate src vol tt w = (Exc AssertionError, w)).
  { intros Hv. unfold production_decay. asserts_go.
    destruct (Rltb 0 h) eqn:E1; [|reflexivity].
    destruct (Rleb 0 n) eqn:E2; [|reflexivity].
    destruct (Rleb 0 t) eqn:E3; [|reflexivity].
    destruct (Rleb 0 rate) eqn:E4; [|reflexivity].
    destruct (Rleb 0 src) eqn:E5; [|reflexivity].
    destruct (Rltb 0 vol) eqn:E6; [|reflexivity].
    destruct (Rleb 0 tt) eqn:E7; [|reflexivity].
    exfalso. apply Hv.
    apply Rltb_iff in E1, E6. apply Rleb_iff in E2, E3, E4, E5, E7.
    repeat split; assumption. }
  split; [|exact Hinv]. split.
  - intros He Hv. rewrite production_decay_ok in He by exact Hv. discriminate He.
  - intros Hv. rewrite Hinv by exact Hv. reflexivity.
Qed.

Lemma saturation_nonneg h rate src vol :
  0 < h -> 0 <= rate -> 0 <= src -> 0 < vol -> 0 <= saturation h rate src vol.
Proof.
  intros Hh Hr Hs Hv. unfold saturation.
  assert (Hl : 0 < ln 2 / h) by (apply Rdiv_lt_0_compat; [apply ln2_pos | exact Hh]).
  unfold Rdiv at 1. apply Rmult_le_pos; [apply Rmult_le_pos; [apply Rmult_le_pos|]; lra|].
  left. apply Rinv_0_lt_compat. exact Hl.
Qed.

Lemma exp_neg_le_1 l t : 0 <= l -> 0 <= t -> exp (- l * t) <= 1.
Proof.
  intros Hl Ht. rewrite <- exp_0. apply exp_le_mono. nra.
Qed.

Lemma lam_pos h : 0 < h -> 0 < ln 2 / h.
Proof. intros Hh. apply Rdiv_lt_0_compat; [apply ln2_pos | exact Hh]. Qed.

(** The post-irradiation transfer time [tt] is a plain decay: the
    result is [decay(halfLife, production_decay(..., tt=0), tt,
    'atoms')]. *)
Theorem production_decay_transfer h n t rate src vol tt w :
  production_valid h n t rate src vol tt ->
  (n0 <- production_decay h n t rate src vol 0 ;; decay h n0 tt "atoms") w =
    production_decay h n t rate src vol tt w.
Proof.
  intros Hv. pose proof Hv as (Hh & Hn & Ht & Hr & Hs & Hvol & Htt).
  pose proof (lam_pos h Hh) as Hl.
  pose proof (saturation_nonneg h rate src vol Hh Hr Hs Hvol) as Hsat.
  pose proof (exp_neg_le_1 (ln 2 / h) t ltac:(lra) Ht) as He1.
  pose proof (exp_pos (- (ln 2 / h) * t)) as He2.
  erewrite bind_ok by (apply production_decay_ok; unfold production_valid; repeat split; lra).
  rewrite production_decay_ok by exact Hv.
  rewrite decay_ok; [|exact Hh| |exact Htt].
  - rewrite decide_True by (right; right; right; reflexivity).
    unfold Counting.to_base. simpl. rewrite Rmult_0_r, exp_0, Rmult_1_r. reflexivity.
  - rewrite Rmult_0_r, exp_0, Rmult_1_r.
    apply Rplus_le_le_0_compat; apply Rmult_le_pos; lra.
Qed.

Lemma production_decay_transfer_witness :
  production_valid 1e10 0 100 1e-3 1e6 1 1e10 /\
  (n0 <- production_decay 1e10 0 100 1e-3 1e6 1 0 ;; decay 1e10 n0 1e10 "atoms") w0 =
    production_decay 1e10 0 100 1e-3 1e6 1 1e10 w0.
Proof.
  assert (Hv : production_valid 1e10 0 100 1e-3 1e6 1 1e10)
    by (unfold production_valid; lra).
  split; [exact Hv | apply production_decay_transfer; exact Hv].
Defined.

(** Irradiating for [t1] and then, from the resulting population, for
    [t2] gives the population of one irradiation for [t1 + t2]. *)
Theorem production_decay_compose h n t1 t2 rate src vol w :
  production_valid h n t1 rate src vol 0 -> 0 <= t2 ->
  (n1 <- production_decay h n t1 rate src vol 0 ;;
   production_decay h n1 t2 rate src vol 0) w =
    production_decay h n (t1 + t2) rate src vol 0 w.
Proof.
  intros Hv Ht2. pose proof Hv as (Hh & Hn & Ht & Hr & Hs & Hvol & _).
  pose proof (lam_pos h Hh) as Hl.
  pose proof (saturation_nonneg h rate src vol Hh Hr Hs Hvol) as Hsat.
  pose proof (exp_neg_le_1 (ln 2 / h) t1 ltac:(lra) Ht) as He1.
  pose proof (exp_pos (- (ln 2 / h) * t1)) as He2.
  erewrite bind_ok by (apply production_decay_ok; exact Hv).
  rewrite !production_decay_ok.
  - f_equal. f_equal. rewrite !Rmult_0_r, exp_0, !Rmult_1_r.
    replace (- (ln 2 / h) * (t1 + t2)) with (- (ln 2 / h) * t1 + - (ln 2 / h) * t2) by ring.
    rewrite exp_plus. ring.
  - unfold production_valid. repeat split; lra.
  - unfold production_valid. repeat split; try lra.
    rewrite Rmult_0_r, exp_0, Rmult_1_r.
    apply Rplus_le_le_0_compat; apply Rmult_le_pos; lra.
Qed.

Lemma production_decay_compose_witness :
  production_valid 100 1000 50 1e-3 1e3 1 0 /\ 0 <= 50 /\
  (n1 <- production_decay 100 1000 50 1e-3 1e3 1 0 ;;
   production_decay 100 n1 50 1e-3 1e3 1 0) w0 =
    production_decay 100 1000 (50 + 50) 1e-3 1e3 1 0 w0.
Proof.
  assert (Hv : production_valid 100 1000 50 1e-3 1e3 1 0) by (unfold production_valid; lra).
  split; [exact Hv|]. split; [lra|]. apply production_decay_compose; [exact Hv | lra].
Defined.

(** Without transfer time, the population after irradiation lies
    between the initial population [n] and the saturation population
    [rate*vol*src/lam]. *)
Theorem production_decay_between h n t rate src vol w :
  production_valid h n t rate src vol 0 ->
  exists v, fst (production_decay h n t rate src vol 0 w) = Ok v /\
    Rmin n (saturation h rate src vol) <= v <= Rmax n (saturation h rate src vol).
Proof.
  intros Hv. pose proof Hv as (Hh & Hn & Ht & Hr & Hs & Hvol & _).
  pose proof (lam_pos h Hh) as Hl.
  pose proof (exp_neg_le_1 (ln 2 / h) t ltac:(lra) Ht) as He1.
  pose proof (exp_pos (- (ln 2 / h) * t)) as He2.
  rewrite production_decay_ok by exact Hv. eexists. split; [reflexivity|].
  rewrite Rmult_0_r, exp_0, Rmult_1_r.
  set (S := saturation h rate src vol). set (e := exp (- (ln 2 / h) * t)) in *.
  destruct (Rle_dec n S) as [HnS|HnS].
  - rewrite Rmin_left, Rmax_right by lra.
    assert (0 <= (S - n) * e) by (apply Rmult_le_pos; lra).
    assert (0 <= (S - n) * (1 - e)) by (apply Rmult_le_pos; lra).
    split; lra.
  - rewrite Rmin_right, Rmax_left by lra.
    assert (0 <= (n - S) * e) by (apply Rmult_le_pos; lra).
    assert (0 <= (n - S) * (1 - e)) by (apply Rmult_le_pos; lra).
    split; lra.
Qed.

Lemma production_decay_between_witness :
  production_valid 100 1000 100 1e-3 1e3 1 0 /\
  exists v, fst (production_decay 100 1000 100 1e-3 1e3 1 0 w0) = Ok v /\
    Rmin 1000 (saturation 100 1e-3 1e3 1) <= v <= Rmax 1000 (saturation 100 1e-3 1e3 1).
Proof.
  assert (Hv : production_valid 100 1000 100 1e-3 1e3 1 0) by (unfold production_valid; lra).
  split; [exact Hv | apply production_decay_between; exact Hv].
Defined.

End ProductionFacts.


Module GeometryFacts.
Import Frame Py BasicNuclearCalcs Math Counting PyFacts DecayFacts CountTimeFacts PlanFacts EvalFacts.

Lemma solid_angle_ok a d w :
  0 <= a -> 0 <= d -> 0 < d ^ 2 + a ^ 2 ->
  solid_angle a d w = (Ok (2 * PI * (1 - d / sqrt (d ^ 2 + a ^ 2))), w).
Proof.
  intros Ha Hd Hp. unfold solid_angle. asserts_go.
  rewrite !Rleb_true by assumption.
  erewrite bind_ok by (apply psqrt_ok; lra).
  erewrite bind_ok by (apply pdiv_ok; apply Rgt_not_eq, sqrt_lt_R0; exact Hp).
  reflexivity.
Qed.

Lemma sum_sq_pos a d : 0 <= a -> 0 <= d -> (a <> 0 \/ d <> 0) -> 0 < d ^ 2 + a ^ 2.
Proof. intros Ha Hd [H|H]; nra. Qed.

Lemma ratio_bounds a d :
  0 <= a -> 0 <= d -> 0 < d ^ 2 + a ^ 2 ->
  0 <= d / sqrt (d ^ 2 + a ^ 2) <= 1.
Proof.
  intros Ha Hd Hp. pose proof (sqrt_lt_R0 _ Hp) as Hs.
  assert (Hle : d <= sqrt (d ^ 2 + a ^ 2)).
  { rewrite <- (sqrt_pow2 d Hd) at 1. apply sqrt_le_1_alt. nra. }
  split.
  - apply div_nonneg; lra.
  - apply Rmult_le_reg_r with (sqrt (d ^ 2 + a ^ 2)); [exact Hs|].
    unfold Rdiv. rewrite Rmult_assoc, Rinv_l, Rmult_1_r, Rmult_1_l by lra. exact Hle.
Qed.

(** For a non-negative radius [a] and distance [d], not both zero,
    [solid_angle] returns a value in [[0, 2 pi]]: [0] for a zero radius
    and [2 pi] (a half space) at zero distance. *)
Theorem solid_angle_range a d w :
  0 <= a -> 0 <= d -> (a <> 0 \/ d <> 0) ->
  exists v, fst (solid_angle a d w) = Ok v /\ 0 <= v <= 2 * PI /\
    (a = 0 -> v = 0) /\ (d = 0 -> v = 2 * PI).
Proof.
  intros Ha Hd Hnz. pose proof (sum_sq_pos a d Ha Hd Hnz) as Hp.
  pose proof PI_RGT_0 as Hpi.
  rewrite solid_angle_ok by assumption. eexists. split; [reflexivity|].
  pose proof (ratio_bounds a d Ha Hd Hp) as [H0 H1].
  split; [split; nra|]. split.
  - intros ->. replace (d ^ 2 + 0 ^ 2) with (d ^ 2) by ring.
    rewrite sqrt_pow2 by exact Hd.
    assert (d <> 0) by (destruct Hnz; [contradiction|assumption]).
    unfold Rdiv. rewrite Rinv_r by assumption. ring.
  - intros ->. unfold Rdiv. rewrite Rmult_0_l. ring.
Qed.

Lemma solid_angle_range_witness :
  0 <= 5 /\ 0 <= 100 /\ (5 <> 0 \/ 100 <> 0) /\
  exists v, fst (solid_angle 5 100 w0) = Ok v /\ 0 <= v <= 2 * PI /\
    (5 = 0 -> v = 0) /\ (100 = 0 -> v = 2 * PI).
Proof.
  split; [lra|]. split; [lra|]. split; [left; lra|].
  apply solid_angle_range; [lra | lra | left; lra].
Defined.

(** [fractional_solid_angle] is [solid_angle / (4 pi)]: a fraction of
    the sphere in [[0, 1/2]]. *)
Theorem fractional_solid_angle_range a d w :
  0 <= a -> 0 <= d -> (a <> 0 \/ d <> 0) ->
  exists v, fst (solid_angle a d w) = Ok v /\
    fst (fractional_solid_angle a d w) = Ok (v / (4 * PI)) /\
    0 <= v / (4 * PI) <= 1 / 2.
Proof.
  intros Ha Hd Hnz. pose proof (sum_sq_pos a d Ha Hd Hnz) as Hp.
  pose proof PI_RGT_0 as Hpi.
  pose proof (ratio_bounds a d Ha Hd Hp) as [H0 H1].
  unfold fractional_solid_angle.
  erewrite bind_ok by (apply solid_angle_ok; assumption).
  rewrite solid_angle_ok by assumption. eexists. split; [reflexivity|].
  split.
  - cbn [fst ret]. f_equal. field. split; [apply Rgt_not_eq, sqrt_lt_R0; exact Hp | lra].
  - split.
    + apply div_nonneg; nra.
    + apply Rmult_le_reg_r with (4 * PI); [lra|].
      unfold Rdiv. rewrite Rmult_assoc, Rinv_l, Rmult_1_r by lra. nra.
Qed.

Lemma fractional_solid_angle_range_witness :
  0 <= 5 /\ 0 <= 100 /\ (5 <> 0 \/ 100 <> 0) /\
  exists v, fst (solid_angle 5 100 w0) = Ok v /\
    fst (fractional_solid_angle 5 100 w0) = Ok (v / (4 * PI)) /\
    0 <= v / (4 * PI) <= 1 / 2.
Proof.
  split; [lra|]. split; [lra|]. split; [left; lra|].
  apply fractional_solid_angle_range; [lra | lra | left; lra].
Defined.

(** [solid_angle] raises [AssertionError] exactly for a negative radius
    or distance; with both zero, it and [fractional_solid_angle] raise
    [ZeroDivisionError]. *)
Theorem solid_angle_errors a d w :
  (fst (solid_angle a d w) = Exc AssertionError <-> a < 0 \/ d < 0) /\
  solid_angle 0 0 w = (Exc ZeroDivisionError, w) /\
  fractional_solid_angle 0 0 w = (Exc ZeroDivisionError, w).
Proof.
  assert (Hz : solid_angle 0 0 w = (Exc ZeroDivisionError, w)).
  { unfold solid_angle. asserts_go. rewrite !Rleb_true by lra.
    erewrite bind_ok by (apply psqrt_ok; lra).
    replace (sqrt (0 ^ 2 + 0 ^ 2)) with 0
      by (replace (0 ^ 2 + 0 ^ 2) with 0 by ring; symmetry; exact sqrt_0).
    apply bind_exc. apply pdiv_zero. }
  split; [|split; [exact Hz | unfold fractional_solid_angle; apply bind_exc; exact Hz]].
  split.
  - intros He. destruct (Rlt_dec a 0) as [Ha|Ha]; [left; exact Ha|].
    destruct (Rlt_dec d 0) as [Hd|Hd]; [right; exact Hd|].
    exfalso. destruct (Req_dec a 0) as [-> | Ha0].
    + destruct (Req_dec d 0) as [-> | Hd0].
      * rewrite Hz in He. discriminate He.
      * rewrite solid_angle_ok in He by (try apply sum_sq_pos; lra). discriminate He.
    + rewrite solid_angle_ok in He by (try apply sum_sq_pos; lra). discriminate He.
  - intros Hneg. unfold solid_angle. asserts_go.
    destruct (Rleb 0 a) eqn:E1; [|reflexivity].
    destruct (Rleb 0 d) eqn:E2; [|reflexivity].
    apply Rleb_iff in E1, E2. lra.
Qed.

(** The arguments [volume_solid_angle] accepts. *)
Definition volume_valid (rSrc rDet det2src : R) : Prop :=
  1 <= det2src /\ 0 <= rSrc /\ 0 <= rDet.

(** [volume_solid_angle] raises [AssertionError], and only then, when
    [det2src < 1] or a radius is negative; otherwise it returns a value
    and never raises (all its divisors are positive). *)
Theorem volume_solid_angle_validation rSrc rDet det2src w :
  (fst (volume_solid_angle rSrc rDet det2src w) = Exc AssertionError <->
   ~ volume_valid rSrc rDet det2src) /\
  (volume_valid rSrc rDet det2src ->
   exists v, volume_solid_angle rSrc rDet det2src w = (Ok v, w)).
Proof.
  assert (Hok : volume_valid rSrc rDet det2src ->
                exists v, volume_solid_angle rSrc rDet det2src w = (Ok v, w)).
  { intros (H1 & H2 & H3). unfold volume_solid_angle. asserts_go.
    rewrite Rleb_true, (Rleb_true 0 rSrc), (Rleb_true 0 rDet) by assumption.
    cbn [andb]. eexists. reflexivity. }
  split; [|exact Hok]. split.
  - intros He Hv. destruct (Hok Hv) as [v Hv']. rewrite Hv' in He. discriminate He.
  - intros Hv. unfold volume_solid_angle. asserts_go.
    destruct (Rleb 1 det2src) eqn:E1; [|reflexivity].
    destruct (Rleb 0 rSrc) eqn:E2; [|reflexivity].
    destruct (Rleb 0 rDet) eqn:E3; [|reflexivity].
    apply Rleb_iff in E1, E2, E3. exfalso. apply Hv. repeat split; assumption.
Qed.

Lemma py_fpow_pos x y : 0 < x -> py_fpow x y = ret (Rpower x y).
Proof.
  intros Hx. unfold py_fpow, Reqb.
  destruct (Req_dec_T y 0) as [->|_].
  - rewrite Rpower_O by exact Hx. reflexivity.
  - rewrite Rltb_true by exact Hx. reflexivity.
Qed.

(** With positive fit parameters (as the defaults are),
    [germanium_eff_exp] is positive and strictly decreasing in the
    energy. *)
Theorem germanium_eff_exp_decreasing a b c d e1 e2 w :
  0 < a -> 0 < b -> 0 < c -> 0 < d -> 0 < e1 -> e1 < e2 ->
  exists v1 v2,
    fst (germanium_eff_exp e1 a b c d w) = Ok v1 /\
    fst (germanium_eff_exp e2 a b c d w) = Ok v2 /\
    0 < v2 < v1.
Proof.
  intros Ha Hb Hc Hd He1 He12.
  assert (Hp : forall e y, 0 < Rpower e y) by (intros; apply exp_pos).
  assert (Hlt : a * Rpower e1 b + c * Rpower e1 d < a * Rpower e2 b + c * Rpower e2 d).
  { pose proof (Rlt_Rpower_l e1 e2 b Hb (conj He1 He12)).
    pose proof (Rlt_Rpower_l e1 e2 d Hd (conj He1 He12)). nra. }
  assert (Hpos1 : 0 < a * Rpower e1 b + c * Rpower e1 d)
    by (pose proof (Hp e1 b); pose proof (Hp e1 d); nra).
  unfold germanium_eff_exp.
  rewrite !py_fpow_pos by lra. cbn [bind ret].
  rewrite !pdiv_ok by lra. do 2 eexists. split; [reflexivity|]. split; [reflexivity|].
  split.
  - apply Rdiv_lt_0_compat; lra.
  - unfold Rdiv. rewrite !Rmult_1_l. apply Rinv_lt_contravar; [nra | exact Hlt].
Qed.

Lemma germanium_eff_exp_decreasing_witness :
  exists v1 v2,
    fst (germanium_eff_exp 100 6.00768900e-01 5.84842744e-01 3.11757094e-11 3.76081347e+00 w0)
      = Ok v1 /\
    fst (germanium_eff_exp 1000 6.00768900e-01 5.84842744e-01 3.11757094e-11 3.76081347e+00 w0)
      = Ok v2 /\
    0 < v2 < v1.
Proof. apply germanium_eff_exp_decreasing; lra. Defined.

(** [ge_bincounts] raises [ZeroDivisionError] for a zero width [p3];
    otherwise, with non-negative amplitudes [p1], [p4], [p6], the peak
    terms only add to the quadratic background, which it returns when
    the three amplitudes are zero. *)
Theorem ge_bincounts_background x p1 p2 p3 p4 p5 p6 p7 p8 p9 w :
  (p3 = 0 -> ge_bincounts x p1 p2 p3 p4 p5 p6 p7 p8 p9 w = (Exc ZeroDivisionError, w)) /\
  (p3 <> 0 -> 0 <= p1 -> 0 <= p4 -> 0 <= p6 ->
   exists v, fst (ge_bincounts x p1 p2 p3 p4 p5 p6 p7 p8 p9 w) = Ok v /\
     quadratic x p7 p8 p9 <= v /\
     (p1 = 0 -> p4 = 0 -> p6 = 0 -> v = quadratic x p7 p8 p9)).
Proof.
  split.
  - intros ->. unfold ge_bincounts, gauss. apply bind_exc. apply bind_exc. apply pdiv_zero.
  - intros H3 H1 H4 H6. unfold ge_bincounts, gauss, smeared_step, skew_gauss.
    erewrite bind_ok by (erewrite bind_ok by (apply pdiv_ok; exact H3); reflexivity).
    erewrite bind_ok by (erewrite bind_ok by (apply pdiv_ok; exact H3); reflexivity).
    erewrite bind_ok by (erewrite bind_ok by (apply pdiv_ok; exact H3); reflexivity).
    eexists. split; [reflexivity|].
    set (z := (x - p2) / p3).
    pose proof (exp_pos z) as Hz.
    assert (Hg : 0 <= p1 * exp (- 0.5 * z ^ 2))
      by (apply Rmult_le_pos; [exact H1 | left; apply exp_pos]).
    assert (Hs : 0 <= p6 / (1 + exp z) ^ 2)
      by (apply div_nonneg; [exact H6 | apply pow_lt; lra]).
    assert (Hk : 0 <= p4 * exp (p5 * z) / (1 + exp z) ^ 4).
    { apply div_nonneg; [|apply pow_lt; lra].
      apply Rmult_le_pos; [exact H4 | left; apply exp_pos]. }
    split; [lra|].
    intros -> -> ->. unfold Rdiv. ring.
Qed.

End GeometryFacts.


Module CountsFacts.
Import Frame Py BasicNuclearCalcs Counting PyFacts DecayFacts CountTimeFacts PlanFacts EvalFacts.


(** The factor by which [counts] converts [countTime] to seconds. *)
Definition time_factor (countUnits : string) : R :=
  if String.eqb countUnits "h" then 3600
  else if String.eqb countUnits "d" then 24 * 3600
  else if String.eqb countUnits "y" then 365 * 24 * 3600
  else 1.

Lemma time_factor_pos cu : 0 < time_factor cu.
Proof.
  unfold time_factor.
  destruct (String.eqb cu "h"); [lra|]. destruct (String.eqb cu "d"); [lra|].
  destruct (String.eqb cu "y"); lra.
Qed.

(** Past its first two assertions, [counts] is [quad_decay] of the
    converted inputs, in a world that may hold printed warnings. *)
Lemma counts_ok a h T u cu w :
  0 < h -> 0 < T ->
  exists w',
    counts a h T u cu w = quad_decay h (to_base u a) (T * time_factor cu) w'.
Proof.
  intros Hh HT. unfold counts. asserts_go.
  rewrite (Rltb_true 0 h), (Rltb_true 0 T) by assumption.
  unfold time_factor, to_base.
  destruct (String.eqb cu "h"); [|destruct (String.eqb cu "d"); [|destruct (String.eqb cu "y")]];
  (destruct (String.eqb u "uCi"); [|destruct (String.eqb u "Ci")]);
  try (destruct (String.eqb cu "s")); try (destruct (String.eqb u "Bq"));
  cbn; rewrite ?Rmult_1_r, ?Rmult_assoc; eexists; reflexivity.
Qed.

Lemma quad_decay_ok h A T w :
  0 < h -> 0 <= A -> 0 <= T ->
  quad_decay h A T w = (Ok (A * (1 - exp (- (ln 2 / h) * T)) / (ln 2 / h)), w).
Proof.
  intros Hh HA HT. unfold quad_decay.
  erewrite bind_ok by (apply decay_ok; lra).
  rewrite decide_True by (right; right; left; reflexivity). reflexivity.
Qed.

Lemma quad_decay_neg h A T w :
  A < 0 -> quad_decay h A T w = (Exc AssertionError, w).
Proof.
  intros HA. unfold quad_decay, decay. apply bind_exc. asserts_go.
  destruct (Rltb 0 h); [|reflexivity].
  rewrite Rleb_false by lra. reflexivity.
Qed.

Lemma to_base_neg u n : n < 0 -> to_base u n < 0.
Proof.
  intros Hn. unfold to_base.
  destruct (String.eqb u "uCi"); [lra|]. destruct (String.eqb u "Ci"); lra.
Qed.

(** [counts] raises [AssertionError] exactly when [halfLife <= 0],
    [countTime <= 0] or [initActivity < 0]: the last is caught by the
    assertion of [decay] inside the integrand, since
    [assert activity >= 0] tests the function [activity] and always
    passes.  Otherwise it returns a count between [0] and the number
    of atoms [A0 / lambda] initially present. *)
Theorem counts_validation a h T u cu w :
  (fst (counts a h T u cu w) = Exc AssertionError <-> ~ (0 < h /\ 0 < T /\ 0 <= a)) /\
  (0 < h -> 0 < T -> 0 <= a ->
   exists v, fst (counts a h T u cu w) = Ok v /\ 0 <= v <= to_base u a * h / ln 2).
Proof.
  pose proof ln2_pos as Hl.
  assert (Hok : 0 < h -> 0 < T -> 0 <= a ->
     exists v, fst (counts a h T u cu w) = Ok v /\ 0 <= v <= to_base u a * h / ln 2).
  { intros Hh HT Ha. destruct (counts_ok a h T u cu w Hh HT) as [w' ->].
    pose proof (time_factor_pos cu) as Hf. pose proof (to_base_nonneg u a Ha) as HA.
    rewrite quad_decay_ok by nra. eexists. split; [reflexivity|].
    set (A := to_base u a) in *.
    assert (Hlam : 0 < ln 2 / h) by (apply Rdiv_lt_0_compat; lra).
    assert (He : 0 < exp (- (ln 2 / h) * (T * time_factor cu)) <= 1).
    { split; [apply exp_pos|]. rewrite <- exp_0. apply exp_le_mono.
      assert (0 <= T * time_factor cu) by nra.
      pose proof (Rmult_le_pos _ _ (Rlt_le _ _ Hlam) H). lra. }
    replace (A * h / ln 2) with (A * 1 / (ln 2 / h)) by (field; lra).
    assert (Hi : 0 < / (ln 2 / h)) by (apply Rinv_0_lt_compat; lra).
    unfold Rdiv at 1 3. split.
    - apply Rmult_le_pos; nra.
    - apply Rmult_le_compat_r; nra. }
  split; [|exact Hok]. split.
  - intros He (Hh & HT & Ha). destruct (Hok Hh HT Ha) as (v & Hv & _).
    rewrite Hv in He. discriminate He.
  - intros Hv. destruct (Rlt_dec 0 h) as [Hh|Hh].
    + destruct (Rlt_dec 0 T) as [HT|HT].
      * destruct (counts_ok a h T u cu w Hh HT) as [w' ->].
        rewrite quad_decay_neg; [reflexivity|]. apply to_base_neg. lra.
      * unfold counts. asserts_go. rewrite (Rltb_true 0 h) by exact Hh.
        rewrite Rltb_false by lra. reflexivity.
    + unfold counts. asserts_go. rewrite Rltb_false by lra. reflexivity.
Qed.

(** The count over an interval grows with the interval: for
    [0 < T1 <= T2], [counts] over [T1] is at most [counts] over [T2]. *)
Theorem counts_monotone a h T1 T2 u cu w :
  0 < h -> 0 < T1 -> T1 <= T2 -> 0 <= a ->
  exists v1 v2, fst (counts a h T1 u cu w) = Ok v1 /\
    fst (counts a h T2 u cu w) = Ok v2 /\ v1 <= v2.
Proof.
  intros Hh HT1 HT12 Ha. pose proof ln2_pos as Hl.
  destruct (counts_ok a h T1 u cu w Hh HT1) as [w1 ->].
  destruct (counts_ok a h T2 u cu w Hh ltac:(lra)) as [w2 ->].
  pose proof (time_factor_pos cu) as Hf. pose proof (to_base_nonneg u a Ha) as HA.
  rewrite !quad_decay_ok by nra. do 2 eexists. split; [reflexivity|]. split; [reflexivity|].
  set (A := to_base u a) in *.
  assert (Hlam : 0 < ln 2 / h) by (apply Rdiv_lt_0_compat; lra).
  assert (He : exp (- (ln 2 / h) * (T2 * time_factor cu))
               <= exp (- (ln 2 / h) * (T1 * time_factor cu)))
    by (apply exp_le_mono; apply Ropp_le_contravar in HT12;
        pose proof (Rmult_le_compat_l _ _ _ (Rlt_le _ _ Hlam)
          (Rmult_le_compat_r _ _ _ (Rlt_le _ _ Hf) HT12)); lra).
  assert (Hi : 0 < / (ln 2 / h)) by (apply Rinv_0_lt_compat; lra).
  unfold Rdiv at 1 3. apply Rmult_le_compat_r; nra.
Qed.

Lemma counts_monotone_witness :
  exists v1 v2, fst (counts 5 100 10 "Bq" "s" w0) = Ok v1 /\
    fst (counts 5 100 20 "Bq" "s" w0) = Ok v2 /\ v1 <= v2.
Proof. apply counts_monotone; lra. Defined.

(** Giving [countTime] in hours, days or years is giving it in
    seconds multiplied by [3600], [24*3600] or [365*24*3600]; giving
    the activity in [uCi] or [Ci] is giving it in becquerels
    multiplied by [1e-6*3.7e10] or [3.7e10]: the outcome and the
    printed output are the same. *)
Theorem counts_unit_conversions a h T u cu w :
  counts a h T u "h" w = counts a h (T * 3600) u "s" w /\
  counts a h T u "d" w = counts a h (T * 24 * 3600) u "s" w /\
  counts a h T u "y" w = counts a h (T * 365 * 24 * 3600) u "s" w /\
  counts a h T "uCi" cu w = counts (a * 1e-6 * 3.7e10) h T "Bq" cu w /\
  counts a h T "Ci" cu w = counts (a * 3.7e10) h T "Bq" cu w.
Proof.
  split; [|split; [|split; [|split]]]; unfold counts; asserts_go;
  (destruct (Rltb 0 h); [|reflexivity]);
  (destruct (Rlt_dec 0 T) as [HT|HT];
   [rewrite !Rltb_true by nra | rewrite !Rltb_false by nra]); reflexivity.
Qed.

End CountsFacts.


Module FitFacts.
Import Frame Py BasicNuclearCalcs Counting PyFacts DecayFacts EvalFacts.

Section BestFit.
Context {F P C : Type}.
Variable cf : F -> fit_outcome P C.
Variable red : F -> P -> R.

(** The successful fits of [args], in order. *)
Fixpoint fit_successes (args : list F) : list (F * P * C) :=
  match args with
  | [] => []
  | f :: rest =>
    match cf f with
    | FitOk p c => (f, p, c) :: fit_successes rest
    | _ => fit_successes rest
    end
  end.

(** One error message per fit that raised [TypeError]. *)
Fixpoint type_errors (args : list F) : list string :=
  match args with
  | [] => []
  | f :: rest =>
    match cf f with
    | FitTypeError => fit_error_msg :: type_errors rest
    | _ => type_errors rest
    end
  end.

Definition red3 (x : F * P * C) : R := let '(f, p, _) := x in red f p.

(** Keeping a candidate only when it is strictly better. *)
Fixpoint best_of (b : option (F * P * C * R)) (l : list (F * P * C))
    : option (F * P * C * R) :=
  match l with
  | [] => b
  | (f, p, c) :: l' =>
    if below_best (red f p) b then best_of (Some (f, p, c, red f p)) l'
    else best_of b l'
  end.

Definition no_raise (args : list F) : Prop :=
  forall g e, In g args -> cf g <> FitRaise e.

Lemma fit_loop_run args r0 fit0 bf bp bc br w :
  no_raise args -> br <= r0 ->
  fit_loop cf red args (Some r0) fit0 (Some (bf, bp, bc, br)) w =
    (Ok (best_of (Some (bf, bp, bc, br)) (fit_successes args)),
     mk_world (store w) (stdout w ++ type_errors args)).
Proof.
  revert r0 fit0 bf bp bc br w.
  induction args as [|f rest IH]; intros r0 fit0 bf bp bc br w Hnr Hle.
  - cbn. rewrite app_nil_r. destruct w; reflexivity.
  - assert (Hnr' : no_raise rest) by (intros g e Hg; apply Hnr; right; exact Hg).
    cbn [fit_loop fit_successes type_errors].
    destruct (cf f) as [p c| | |e] eqn:Ef.
    + cbn [bind ret below_best best_of]. destruct (Rltb (red f p) br) eqn:Eb.
      * apply IH; [exact Hnr' | lra].
      * apply IH; [exact Hnr'|]. unfold Rltb in Eb. destruct (Rlt_dec (red f p) br); [discriminate|lra].
    + cbn [bind ret print below_best]. rewrite Rltb_false by lra.
      rewrite IH by (exact Hnr' || exact Hle). cbn [store stdout].
      rewrite <- app_assoc. reflexivity.
    + cbn [bind ret below_best]. rewrite Rltb_false by lra. apply IH; assumption.
    + exfalso. apply (Hnr f e); [left; reflexivity | exact Ef].
Qed.

Lemma best_of_first_min f0 p0 c0 l :
  exists f p c l1 l2,
    best_of (Some (f0, p0, c0, red f0 p0)) l = Some (f, p, c, red f p) /\
    (f0, p0, c0) :: l = l1 ++ (f, p, c) :: l2 /\
    Forall (fun x => red f p < red3 x) l1 /\
    Forall (fun x => red f p <= red3 x) l2.
Proof.
  revert f0 p0 c0. induction l as [|[[g q] d] l IH]; intros f0 p0 c0.
  - exists f0, p0, c0, [], []. repeat split; constructor.
  - cbn [best_of below_best]. destruct (Rltb (red g q) (red f0 p0)) eqn:Eb.
    + apply Rltb_iff in Eb.
      destruct (IH g q d) as (f & p & c & l1 & l2 & Hb & Hs & H1 & H2).
      exists f, p, c, ((f0, p0, c0) :: l1), l2. split; [exact Hb|].
      split; [cbn; rewrite Hs; reflexivity|]. split; [|exact H2].
      constructor; [|exact H1]. cbn [red3].
      destruct l1 as [|y l1]; cbn in Hs; injection Hs; intros; subst.
      * exact Eb.
      * inversion H1; subst. cbn [red3] in *. lra.
    + assert (Hge : red f0 p0 <= red g q)
        by (unfold Rltb in Eb; destruct (Rlt_dec (red g q) (red f0 p0)); [discriminate|lra]).
      destruct (IH f0 p0 c0) as (f & p & c & l1 & l2 & Hb & Hs & H1 & H2).
      destruct l1 as [|y l1]; cbn in Hs; injection Hs; intros; subst.
      * exists f, p, c, [], ((g, q, d) :: l2). split; [exact Hb|].
        split; [reflexivity|]. split; [constructor|]. constructor; [exact Hge | exact H2].
      * inversion H1; subst. cbn [red3] in *.
        exists f, p, c, ((f0, p0, c0) :: (g, q, d) :: l1), l2. split; [exact Hb|].
        split; [reflexivity|]. split; [|exact H2].
        constructor; [assumption|]. constructor; [cbn [red3]; lra | assumption].
Qed.

(** When the first function of [args] fits, and no fit raises an
    exception other than [TypeError] or [RuntimeError],
    [find_best_fit] returns the first of the successful fits with the
    least reduced chi-square: every successful fit before it has a
    larger one, every one after it one at least as large.  It prints
    one error message per fit that raised [TypeError] and nothing
    else. *)
Theorem find_best_fit_first_min f0 p0 c0 rest w :
  cf f0 = FitOk p0 c0 -> no_raise rest ->
  exists f p c l1 l2,
    find_best_fit cf red (f0 :: rest) w =
      (Ok (BestFit f p c (red f p)), mk_world (store w) (stdout w ++ type_errors rest)) /\
    fit_successes (f0 :: rest) = l1 ++ (f, p, c) :: l2 /\
    Forall (fun x => red f p < red3 x) l1 /\
    Forall (fun x => red f p <= red3 x) l2.
Proof.
  intros Hf0 Hnr.
  destruct (best_of_first_min f0 p0 c0 (fit_successes rest))
    as (f & p & c & l1 & l2 & Hb & Hs & H1 & H2).
  exists f, p, c, l1, l2. split.
  - unfold find_best_fit, try_except, bind. cbn [fit_loop]. rewrite Hf0.
    cbn [bind ret below_best].
    rewrite fit_loop_run by (exact Hnr || lra). rewrite Hb. reflexivity.
  - split; [|split; assumption]. cbn [fit_successes]. rewrite Hf0. exact Hs.
Qed.

(** [find_best_fit] returns [(None, [], [], 0.0)] after printing
    its warning when [args] is empty, and also when the first function
    fails to fit with [RuntimeError] or [TypeError], whatever the
    other functions give: [redChiSq] is then unbound at the first
    comparison.  An [UnboundLocalError] raised by the first fit is
    caught by the same outer [except] and gives the same result; any
    other exception of the first fit propagates. *)
Theorem find_best_fit_no_first_fit f rest w :
  find_best_fit cf red [] w = (Ok NoFit, mk_world (store w) (stdout w ++ [no_fit_msg])) /\
  (cf f = FitRuntimeError ->
   find_best_fit cf red (f :: rest) w = (Ok NoFit, mk_world (store w) (stdout w ++ [no_fit_msg]))) /\
  (cf f = FitTypeError ->
   find_best_fit cf red (f :: rest) w =
     (Ok NoFit, mk_world (store w) (stdout w ++ [fit_error_msg; no_fit_msg]))) /\
  (cf f = FitRaise UnboundLocalError ->
   find_best_fit cf red (f :: rest) w = (Ok NoFit, mk_world (store w) (stdout w ++ [no_fit_msg]))) /\
  (forall e, cf f = FitRaise e -> e <> UnboundLocalError ->
   find_best_fit cf red (f :: rest) w = (Exc e, w)).
Proof.
  split; [|split; [|split; [|split]]].
  - reflexivity.
  - intros Hf. unfold find_best_fit, try_except, bind. cbn [fit_loop]. rewrite Hf.
    reflexivity.
  - intros Hf. unfold find_best_fit, try_except, bind. cbn [fit_loop]. rewrite Hf.
    cbn. rewrite <- app_assoc. reflexivity.
  - intros Hf. unfold find_best_fit, try_except, bind. cbn [fit_loop]. rewrite Hf.
    reflexivity.
  - intros e Hf He. unfold find_best_fit, try_except, bind. cbn [fit_loop]. rewrite Hf.
    destruct e; [reflexivity | reflexivity | reflexivity | congruence].
Qed.

End BestFit.

(** A fit that fails with [TypeError], then fits whose reduced
    chi-squares are [1], [0], [0] and [4]. *)
Definition demo_fit (n : nat) : fit_outcome R unit :=
  if decide (n = 1%nat) then FitTypeError else FitOk (INR n) tt.

Definition demo_red (n : nat) (p : R) : R := (p - 2) ^ 2.

Lemma find_best_fit_first_min_witness :
  demo_fit 3 = FitOk 3 tt /\ no_raise demo_fit [1; 2; 2; 4]%nat /\
  exists f p c l1 l2,
    find_best_fit demo_fit demo_red [3; 1; 2; 2; 4]%nat w0 =
      (Ok (BestFit f p c (demo_red f p)),
       mk_world (store w0) (stdout w0 ++ type_errors demo_fit [1; 2; 2; 4]%nat)) /\
    fit_successes demo_fit [3; 1; 2; 2; 4]%nat = l1 ++ (f, p, c) :: l2 /\
    Forall (fun x => demo_red f p < red3 demo_red x) l1 /\
    Forall (fun x => demo_red f p <= red3 demo_red x) l2.
Proof.
  assert (H3 : demo_fit 3 = FitOk 3 tt)
    by (unfold demo_fit; simpl; f_equal; lra).
  assert (Hnr : no_raise demo_fit [1; 2; 2; 4]%nat).
  { intros g e Hg. unfold demo_fit. destruct (decide (g = 1%nat)); discriminate. }
  split; [exact H3|]. split; [exact Hnr|].
  apply (find_best_fit_first_min demo_fit demo_red 3%nat 3 tt [1; 2; 2; 4]%nat w0 H3 Hnr).
Defined.

End FitFacts.


Module PeakKeysFacts.
Import Counting PeakWindowFacts EvalFacts.
Local Open Scope Z_scope.

(** Any index from [-len(ch)] to [len(ch) - 1] is in range. *)
Lemma py_get_range (ch : list Z) (j : Z) :
  - Z.of_nat (length ch) <= j < Z.of_nat (length ch) -> is_Some (py_get ch j).
Proof.
  intros Hj. unfold py_get.
  destruct (j <? 0) eqn:Ej; [apply Z.ltb_lt in Ej | apply Z.ltb_ge in Ej];
  (replace (0 <=? _) with true by (symmetry; apply Z.leb_le; lia));
  apply lookup_lt_is_Some_2; lia.
Qed.

Ltac py_get_some :=
  repeat match goal with
  | |- context [ py_get ?ch ?j ] =>
    let c := fresh "c" in let Hc := fresh "Hc" in
    destruct (py_get_range ch j ltac:(lia)) as [c Hc]; rewrite Hc; cbn [mbind option_bind]
  end.

(** The loop body never indexes out of range: [window_at] is defined
    at every index of [ch], whatever the window parameters. *)
Lemma window_at_some (maxW pw minW : Z) (ch : list Z) (i : Z) :
  0 <= i < Z.of_nat (length ch) -> is_Some (window_at maxW pw minW ch i).
Proof.
  intros Hi.
  unfold window_at, window_block1, window_block2, window_block3, window_block4.
  repeat (case_bool_decide; cbn [negb andb mbind option_bind]);
  py_get_some; try (eexists; reflexivity); lia.
Qed.

Section InsertAll.
Context {V : Type} (kf : Z -> Z) (wf : Z -> V).

Lemma insert_all_is_Some (m0 : gmap Z V) (is : list Z) (k : Z) :
  is_Some (insert_all kf wf m0 is !! k) <-> k ∈ map kf is \/ is_Some (m0 !! k).
Proof.
  revert m0. induction is as [|i is IH]; intros m0.
  - cbn. rewrite elem_of_nil. tauto.
  - unfold insert_all. cbn [foldl map]. fold (insert_all kf wf (<[kf i := wf i]> m0) is).
    rewrite IH, elem_of_cons.
    destruct (decide (k = kf i)) as [->|Hne].
    + rewrite lookup_insert_eq. split; [tauto|]. intros _. right. eexists; reflexivity.
    + rewrite lookup_insert_ne by congruence. tauto.
Qed.

(** The entry of a key is the value of its last index. *)
Lemma insert_all_last (m0 : gmap Z V) (is : list Z) (n : nat) (j : Z) :
  is !! n = Some j ->
  (forall n' j', (n < n')%nat -> is !! n' = Some j' -> kf j' <> kf j) ->
  insert_all kf wf m0 is !! kf j = Some (wf j).
Proof.
  revert m0 n. induction is as [|i is IH]; intros m0 n Hj Hlast.
  - rewrite lookup_nil in Hj. discriminate.
  - unfold insert_all. cbn [foldl]. fold (insert_all kf wf (<[kf i := wf i]> m0) is).
    destruct n as [|n].
    + injection Hj as ->. rewrite insert_all_notin.
      * apply lookup_insert_eq.
      * intros Hin. apply list_elem_of_lookup in Hin as [n' Hn'].
        rewrite list_lookup_fmap in Hn'.
        destruct (is !! n') as [j'|] eqn:E; [|discriminate].
        injection Hn' as Hk. apply (Hlast (S n') j'); [lia | exact E | exact Hk].
    + apply (IH _ n Hj). intros n' j' Hn Hj'. apply (Hlast (S n') j'); [lia | exact Hj'].
Qed.

End InsertAll.

(** For any window parameters and any list of peak channels, sorted or
    not, [get_peak_windows] never raises [IndexError]; its dict has
    exactly the channels of [ch] as keys (none for an empty list), and
    when a channel occurs more than once, the window computed at its
    last occurrence is the one kept. *)
Theorem get_peak_windows_keys (maxW pw minW : Z) (ch : list Z) :
  exists m, get_peak_windows maxW pw minW ch = Some m /\
    (forall c, is_Some (m !! c) <-> c ∈ ch) /\
    (forall (i : nat) c, ch !! i = Some c ->
       (forall (j : nat), (i < j)%nat -> ch !! j <> Some c) ->
       m !! c = window_at maxW pw minW ch (Z.of_nat i)).
Proof.
  set (is := seqZ 0 (Z.of_nat (length ch))).
  assert (Hall : forall j, j ∈ is ->
            is_Some (py_get ch j) /\ is_Some (window_at maxW pw minW ch j)).
  { intros j Hj. apply elem_of_seqZ in Hj.
    split; [apply py_get_range; lia | apply window_at_some; lia]. }
  assert (Hkey : forall (i : nat) c, ch !! i = Some c -> key_of ch (Z.of_nat i) = c).
  { intros i c Hc. unfold key_of.
    rewrite (py_get_in ch (Z.of_nat i) c) by (rewrite ?Nat2Z.id; auto with lia).
    reflexivity. }
  eexists. split; [unfold get_peak_windows; apply get_peak_windows_fold; exact Hall|].
  split.
  - intros c. rewrite insert_all_is_Some, lookup_empty.
    unfold is. rewrite keys_are_channels.
    split; [intros [H|[? H]]; [exact H | discriminate] | left; assumption].
  - intros i c Hc Hlast.
    pose proof (lookup_lt_Some _ _ _ Hc) as Hi.
    assert (His : is !! i = Some (Z.of_nat i)) by (apply lookup_seqZ; lia).
    rewrite <- (Hkey i c Hc).
    rewrite (insert_all_last _ _ _ _ i (Z.of_nat i) His).
    + destruct (window_at_some maxW pw minW ch (Z.of_nat i) ltac:(lia)) as [w Hw].
      unfold win_of. rewrite Hw. reflexivity.
    + intros n' j' Hn Hj'. apply lookup_seqZ in Hj' as [-> Hlt].
      destruct (lookup_lt_is_Some_2 ch n' ltac:(lia)) as [c' Hc'].
      rewrite Z.add_0_l, (Hkey n' c' Hc'), (Hkey i c Hc). intros ->.
      apply (Hlast n' Hn Hc').
Qed.

End PeakKeysFacts.


Module PlanOrderFacts.
Import Frame Py BasicNuclearCalcs Counting PyFacts DecayFacts CountTimeFacts PlanFacts EvalFacts.

(** Every candidate of [itertools.permutations] is a permutation. *)
Lemma picks_perm {A} (l : list A) x rest :
  (x, rest) ∈ picks l -> l ≡ₚ x :: rest.
Proof.
  revert x rest. induction l as [|y l IH]; intros x rest Hin; cbn [picks] in Hin.
  - apply elem_of_nil in Hin. contradiction.
  - apply elem_of_cons in Hin as [Heq|Hin].
    + injection Heq as -> ->. reflexivity.
    + apply list_elem_of_fmap in Hin as [[x' rest'] [Heq Hin]].
      cbn in Heq. injection Heq as -> ->.
      rewrite (IH x' rest' Hin). apply Permutation_swap.
Qed.

Lemma permutations_n_perm {A} n (l : list A) o :
  length l = n -> o ∈ permutations_n n l -> o ≡ₚ l.
Proof.
  revert l o. induction n as [|n IH]; intros l o Hl Hin; cbn [permutations_n] in Hin.
  - destruct l; [|discriminate]. apply list_elem_of_singleton in Hin. subst. reflexivity.
  - apply list_elem_of_In, in_flat_map in Hin as [[x rest] [Hp Hin]].
    apply list_elem_of_In in Hp, Hin. cbn [fst snd] in Hin.
    apply list_elem_of_fmap in Hin as [o' [-> Ho']].
    pose proof (picks_perm l x rest Hp) as Hperm.
    rewrite Hperm. constructor. apply IH; [|exact Ho'].
    apply Permutation_length in Hperm. cbn in Hperm. lia.
Qed.

Lemma permutations_perm {A} (l : list A) o : o ∈ permutations l -> o ≡ₚ l.
Proof. apply permutations_n_perm. reflexivity. Qed.

(** The unit conversion always succeeds and keeps the foil names. *)
Lemma convert_units_foils l u w :
  fst (convert_units l u w) = Ok tt /\
  map foil (store (snd (convert_units l u w)) l) = map foil (store w l).
Proof.
  unfold convert_units.
  destruct (String.eqb u "uCi"); [|destruct (String.eqb u "Ci")];
  (split; [reflexivity|]); cbn; unfold store_upd; rewrite ?decide_True by reflexivity;
  rewrite ?List.map_map; reflexivity.
Qed.

Definition order_ok (allowed : list (list string)) (b : best) : Prop :=
  match b with None => True | Some (o, _, _) => o ∈ allowed end.

Lemma search_order abs_eff ht bg tm fuel l allowed orders b w res w' :
  order_ok allowed b -> (forall o, o ∈ orders -> o ∈ allowed) ->
  search abs_eff ht bg tm fuel l orders b w = (Ok res, w') -> order_ok allowed res.
Proof.
  revert b w. induction orders as [|o orders IH]; intros b w Hb Hall H.
  - cbn in H. injection H as <- _. exact Hb.
  - cbn [search] in H. bind_inv H. bind_inv H.
    refine (IH _ _ _ (fun o' Ho' => Hall o' (proj2 (elem_of_cons _ _ _) (or_intror Ho'))) H).
    destruct b as [[[o0 t0] d0]|]; cbn [better]; [destruct (Rltb _ _)|]; cbn;
      try exact Hb; apply Hall, elem_of_cons; left; reflexivity.
Qed.

(** The order [optimal_count_plan] returns is one of the candidates it
    tries: a permutation of [set(foilParams.foil.tolist())] in the
    set's iteration order, so each foil of the input appears in it as
    often as in that set. *)
Theorem optimal_count_plan_order set_order abs_eff ht bg tm fuel l units w df order T :
  fst (optimal_count_plan set_order abs_eff ht bg tm fuel l units w) = Ok (df, order, T) ->
  order ≡ₚ set_order (map foil (store w l)).
Proof.
  intros H. unfold optimal_count_plan in H.
  destruct (convert_units_foils l units w) as [Hc Hf].
  destruct (convert_units l units w) as [r1 w1] eqn:E1. cbn [fst snd] in Hc, Hf. subst r1.
  unfold bind at 1 in H. rewrite E1 in H.
  match type of H with fst (?m w1) = _ => destruct (m w1) as [r w'] eqn:E2 end.
  cbn [fst] in H. subst r.
  bind_inv E2. cbn in Hm. injection Hm as <- <-. bind_inv E2.
  rewrite <- Hf.
  pose proof (search_order abs_eff ht bg tm fuel l
                (permutations (set_order (map foil (store w1 l))))
                _ None w1 a w2 I (fun o Ho => Ho) Hm) as Ho.
  destruct a as [[[o t] d]|]; cbn in E2; [|discriminate].
  injection E2 as _ <- _ _. apply permutations_perm. exact Ho.
Qed.

Lemma optimal_count_plan_order_witness :
  exists df,
    fst (optimal_count_plan remove_dups plan_abs_eff 0 0 false 1 1%positive "Bq" plan_world)
      = Ok (df, ["A"], 0) /\
    ["A"] ≡ₚ remove_dups (map foil (store plan_world 1%positive)).
Proof.
  destruct (plan_example 1) as [df Hdf]. exists df. split; [exact Hdf|].
  exact (optimal_count_plan_order remove_dups plan_abs_eff 0 0 false 1 1%positive "Bq"
           plan_world df ["A"] 0 Hdf).
Defined.

Lemma map_insert_same {A B} (g : A -> B) (l : list A) i x :
  (forall y, l !! i = Some y -> g x = g y) -> map g (<[i := x]> l) = map g l.
Proof.
  revert i. induction l as [|y l IH]; intros i Hx; [reflexivity|].
  destruct i as [|i]; cbn.
  - rewrite (Hx y eq_refl). reflexivity.
  - f_equal. apply IH. exact Hx.
Qed.

Lemma at_upd_wch rx f df :
  (forall r, wch (f r) = wch r) -> map wch (at_upd rx f df) = map wch df.
Proof.
  intros Hf. unfold at_upd. destruct (df !! rx) as [r|] eqn:E; [|reflexivity].
  apply map_insert_same. intros y Hy. rewrite E in Hy. injection Hy as <-. apply Hf.
Qed.

Lemma count_group_wch abs_eff bg tm fuel rxs df ct w d c w' :
  count_group abs_eff bg tm fuel rxs df ct w = (Ok (d, c), w') -> map wch d = map wch df.
Proof.
  revert df ct w d c w'. induction rxs as [|rx rxs IH]; intros df ct w d c w' H; cbn [count_group] in H.
  - injection H as <- _ _. reflexivity.
  - destruct (df !! rx); [|injection H as <- _ _; reflexivity].
    bind_inv H. cbv zeta in H.
    destruct (at_upd rx (set_countOrder (a + 1)%Z) df !! rx) as [r|] eqn:Er.
    2:{ injection H as <- _ _. apply at_upd_wch. reflexivity. }
    bind_inv H. bind_inv H. destruct a1 as [t|].
    + bind_inv H. apply IH in H. rewrite H, !at_upd_wch by reflexivity. reflexivity.
    + injection H as <- _ _. rewrite !at_upd_wch by reflexivity. reflexivity.
Qed.

Lemma decay_uncounted_wch rows dt w rows' w' :
  decay_uncounted rows dt w = (Ok rows', w') -> map wch rows' = map wch rows.
Proof.
  revert w rows' w'. induction rows as [|r rows IH]; intros w rows' w' H; cbn [decay_uncounted] in H.
  - injection H as <- _. reflexivity.
  - bind_inv H. bind_inv H. injection H as <- _. cbn. f_equal; [|eapply IH; eassumption].
    destruct (Reqb (countTime r) 0).
    + bind_inv Hm. bind_inv Hm. injection Hm as <- _. reflexivity.
    + injection Hm as <- _. reflexivity.
Qed.

Lemma count_order_wch abs_eff ht bg tm fuel order df tT w d t w' :
  count_order abs_eff ht bg tm fuel order df tT w = (Ok (d, t), w') -> map wch d = map wch df.
Proof.
  revert df tT w d t w'. induction order as [|f order IH]; intros df tT w d t w' H; cbn [count_order] in H.
  - injection H as <- _ _. reflexivity.
  - bind_inv H. destruct a as [df1 ct]. apply count_group_wch in Hm.
    bind_inv H. apply IH in H. apply decay_uncounted_wch in Hm0.
    rewrite H, Hm0, <- Hm. clear.
    generalize df1. induction (group_index df f) as [|rx rxs IH]; intros df2; [reflexivity|].
    cbn [fold_left]. rewrite IH. apply at_upd_wch. reflexivity.
Qed.

Definition table_ok (fp0 : frame) (b : best) : Prop :=
  match b with None => True | Some (_, _, d) => map wch d = fp0 end.

Lemma search_table abs_eff ht bg tm fuel l fp0 orders b w res w' :
  (forall c, keeps_store (abs_eff c)) ->
  store w l = fp0 -> table_ok fp0 b ->
  search abs_eff ht bg tm fuel l orders b w = (Ok res, w') -> table_ok fp0 res.
Proof.
  intros Hk. revert b w. induction orders as [|o orders IH]; intros b w Hs Hb H.
  - cbn in H. injection H as <- _. exact Hb.
  - cbn [search] in H. bind_inv H. cbn in Hm. injection Hm as <- <-.
    bind_inv H. destruct a as [d t].
    pose proof (keeps_count_order abs_eff Hk ht bg tm fuel o (map init_work (store w l)) 0 w)
      as Hst.
    rewrite Hm in Hst. cbn [snd] in Hst.
    apply count_order_wch in Hm. rewrite List.map_map in Hm.
    refine (IH _ w1 _ _ H); [congruence|].
    destruct b as [[[o0 t0] d0]|]; cbn [better]; [destruct (Rltb _ _)|]; cbn;
      try exact Hb; rewrite Hm, <- Hs; apply List.map_id.
Qed.

#[local] Instance countOrder_le_total : Total countOrder_le.
Proof. intros r1 r2. unfold countOrder_le. lia. Qed.

(** When [abs_eff] leaves the object store alone, the table
    [optimal_count_plan] returns is sorted by [countOrder] and has one
    row for each row of the caller's table after the unit conversion,
    with the caller's columns unchanged. *)
Theorem optimal_count_plan_table set_order abs_eff ht bg tm fuel l units w df order T :
  (forall c, keeps_store (abs_eff c)) ->
  fst (optimal_count_plan set_order abs_eff ht bg tm fuel l units w) = Ok (df, order, T) ->
  Sorted countOrder_le df /\ map wch df ≡ₚ store (snd (convert_units l units w)) l.
Proof.
  intros Hk H. unfold optimal_count_plan in H.
  destruct (convert_units_foils l units w) as [Hc _].
  destruct (convert_units l units w) as [r1 w1] eqn:E1. cbn [fst snd] in Hc |- *. subst r1.
  unfold bind at 1 in H. rewrite E1 in H.
  match type of H with fst (?m w1) = _ => destruct (m w1) as [r w'] eqn:E2 end.
  cbn [fst] in H. subst r.
  bind_inv E2. cbn in Hm. injection Hm as <- <-. bind_inv E2.
  pose proof (search_table abs_eff ht bg tm fuel l (store w1 l) _ None w1 a w2 Hk
                eq_refl I Hm) as Ht.
  destruct a as [[[o t] d]|]; cbn in E2; [|discriminate].
  injection E2 as <- _ _ _. cbn in Ht. split.
  - apply Sorted_merge_sort. apply _.
  - unfold sort_by_countOrder. rewrite <- Ht. apply Permutation_map, merge_sort_Permutation.
Qed.

Lemma optimal_count_plan_table_witness :
  (forall c, keeps_store (plan_abs_eff c)) /\
  exists df,
    fst (optimal_count_plan remove_dups plan_abs_eff 0 0 false 1 1%positive "Bq" plan_world)
      = Ok (df, ["A"], 0) /\
    Sorted countOrder_le df /\
    map wch df ≡ₚ store (snd (convert_units 1%positive "Bq" plan_world)) 1%positive.
Proof.
  assert (Hk : forall c, keeps_store (plan_abs_eff c)) by (intros c w; reflexivity).
  split; [exact Hk|].
  destruct (plan_example 1) as [df Hdf]. exists df. split; [exact Hdf|].
  exact (optimal_count_plan_table remove_dups plan_abs_eff 0 0 false 1 1%positive "Bq"
           plan_world df ["A"] 0 Hk Hdf).
Defined.

(** Rounding up to whole minutes: with [toMinute=True] the count time
    of a channel is [foil_count_time]'s time rounded up to the next
    multiple of [60] s; with [toMinute=False] it is that time itself. *)
Theorem channel_count_time_minutes bg fuel r absEff w t tb w' :
  foil_count_time (relStat (wch r)) (halfLife (wch r))
    (countActivity r - 3 * countActUncert r) absEff bg "Bq" 30 fuel w = (Ok (t, tb), w') ->
  channel_count_time bg false fuel r absEff w = (Ok (Some t), w') /\
  exists k : Z, channel_count_time bg true fuel r absEff w = (Ok (Some (IZR k * 60)), w') /\
    t <= IZR k * 60 < t + 60.
Proof.
  intros H. unfold channel_count_time, try_except.
  split; [rewrite (bind_ok _ _ _ _ _ H); reflexivity|].
  exists (- Int_part (- (t / 60)))%Z. split.
  - rewrite (bind_ok _ _ _ _ _ H). unfold ceil. cbn. rewrite opp_IZR. reflexivity.
  - destruct (base_Int_part (- (t / 60))) as [H1 H2]. rewrite opp_IZR. lra.
Qed.

Lemma channel_count_time_minutes_witness :
  exists t tb w',
    foil_count_time (relStat (wch (init_work ch_high))) (halfLife (wch (init_work ch_high)))
      (countActivity (init_work ch_high) - 3 * countActUncert (init_work ch_high)) (1 / 2) 0
      "Bq" 30 1 plan_world = (Ok (t, tb), w') /\
    channel_count_time 0 false 1 (init_work ch_high) (1 / 2) plan_world = (Ok (Some t), w') /\
    exists k : Z,
      channel_count_time 0 true 1 (init_work ch_high) (1 / 2) plan_world
        = (Ok (Some (IZR k * 60)), w') /\ t <= IZR k * 60 < t + 60.
Proof.
  unfold init_work, ch_high. cbn [wch relStat halfLife countActivity countActUncert initActivity
    activityUncert].
  destruct (foil_count_time_valid (1 / 10) 1 (100 - 3 * 0) (1 / 2) 0 "Bq" 30 1 plan_world)
    as [w' Hf]; [unfold valid_inputs; lra|].
  assert (Hz : foil_count_time (1 / 10) 1 (100 - 3 * 0) (1 / 2) 0 "Bq" 30 1 plan_world
               = (Ok (1e99, 1e99), w')).
  { rewrite Hf. unfold try_except.
    rewrite body_exc with (ex := ZeroDivisionError).
    - rewrite decide_True by reflexivity. reflexivity.
    - apply count_loop_first_exc; [lra|]. apply knoll_zero_background.
      pose proof (quad_integrand_1_nonneg 1 (100 - 3 * 0) (1 / 2) "Bq" ltac:(lra) ltac:(lra)
                    ltac:(lra)).
      unfold Rdiv at 1. rewrite Rinv_1, Rmult_1_r. exact H. }
  exists 1e99, 1e99, w'. split; [exact Hz|].
  exact (channel_count_time_minutes 0 1 (mk_work ch_high 0 0 100 0) (1 / 2) plan_world
           1e99 1e99 w' Hz).
Defined.
End PlanOrderFacts.
